(** * LXD: the [dir] storage driver and the USB hotplug handler registry

    A shallow embedding of
      - [lxd/storage/drivers/driver_dir.go]  (module [Drivers]) and
      - [lxd/device/device_utils_usb.go]     (module [Device]),
    with the properties of their specification stated and proved over it.

    Go values are modelled as follows.
      - [string]            : [string] (a Go string is a byte sequence, and so
                              is a list of [ascii]);
      - [map[string]T]      : [gmap string T]; reading a missing key of a
                              [map[string]string] gives [""] ([go_index]);
      - [error]             : [option string], [None] being [nil] and
                              [Some msg] an error whose [Error()] is [msg];
      - a nil [func] value  : [None] in an [option] of functions;
      - package-level state and the operating system: explicit state passing
        (a small state monad for the storage driver). *)

From Stdlib Require Import Ascii String ZArith.
From Stdlib Require Import DecimalString DecimalN Lia.
From stdpp Require Import base option list strings gmap.

Local Open Scope string_scope.

(** ** Go primitives shared by both packages *)

(** Go's [error] interface, by its message. *)
Definition error : Type := option string.

(** [m[k]] on a [map[string]string]: the zero value [""] for a missing key. *)
Definition go_index (m : gmap string string) (k : string) : string :=
  default "" (m !! k).

(** [strings.HasPrefix(s, prefix)]. *)
Definition strings_HasPrefix (s pre : string) : bool := String.prefix pre s.

(** [strings.Join(elems, sep)]. *)
Fixpoint strings_Join (elems : list string) (sep : string) : string :=
  match elems with
  | [] => ""
  | [x] => x
  | x :: rest => x +:+ sep +:+ strings_Join rest sep
  end.

(** [strings.Split(s, sep)] for a one-byte separator. *)
Fixpoint split_byte (sep : ascii) (s : string) : list string :=
  match s with
  | EmptyString => [""]
  | String a s' =>
      if Ascii.eqb a sep then "" :: split_byte sep s'
      else match split_byte sep s' with
           | [] => [String a ""]
           | x :: xs => String a x :: xs
           end
  end.

(** [fmt.Sprintf(format, args...)] for formats whose only verb is [%s] and
    whose arguments are strings: each [%s] is replaced by the next argument
    (by [%!s(MISSING)] when none is left, as Go prints it); every other byte
    is copied. [fmt.Errorf] builds its message the same way. *)
Fixpoint fmt_Sprintf (format : string) (args : list string) : string :=
  match format with
  | EmptyString => ""
  | String "%" (String "s" rest) =>
      match args with
      | a :: args' => a +:+ fmt_Sprintf rest args'
      | [] => "%!s(MISSING)" +:+ fmt_Sprintf rest []
      end
  | String c rest => String c (fmt_Sprintf rest args)
  end.

Definition fmt_Errorf (format : string) (args : list string) : error :=
  Some (fmt_Sprintf format args).

(** *** [path/filepath.Clean] (Unix)

    The lexical normalisation of Go's standard library: multiple separators
    become one, [.] elements are dropped, an inner [..] removes the element
    before it, a [..] at the root is dropped, and the empty result is ["."].
    [clean_elem] is one turn of the library's loop, on the stack of elements
    written so far (top first); a leading run of [..] in a path that is not
    rooted can not be backed over. *)
Definition clean_elem (rooted : bool) (out : list string) (elem : string)
  : list string :=
  if String.eqb elem "" then out
  else if String.eqb elem "." then out
  else if String.eqb elem ".." then
    match out with
    | top :: rest => if String.eqb top ".." then ".." :: out else rest
    | [] => if rooted then [] else [".."]
    end
  else elem :: out.

Definition filepath_Clean (path : string) : string :=
  if String.eqb path "" then "."
  else
    let rooted := strings_HasPrefix path "/" in
    let elems := rev (fold_left (clean_elem rooted) (split_byte "/" path) []) in
    let out := (if rooted then "/" else "") +:+ strings_Join elems "/" in
    if String.eqb out "" then "." else out.

(** [strings.SplitN(s, sep, n)] for a one-byte separator: no substring for
    [n = 0], all of them for [n < 0], and for [n > 0] at most [n], the last
    being the remainder left unsplit. [split_cuts] cuts at the first [cuts]
    separators. *)
Fixpoint split_cuts (sep : ascii) (cuts : nat) (s : string) {struct s}
  : list string :=
  match cuts with
  | O => [s]
  | S cuts' =>
      match s with
      | EmptyString => [""]
      | String a s' =>
          if Ascii.eqb a sep then "" :: split_cuts sep cuts' s'
          else match split_cuts sep cuts s' with
               | [] => [String a ""]
               | x :: xs => String a x :: xs
               end
      end
  end.

Definition strings_SplitN (s : string) (sep : ascii) (n : Z) : list string :=
  if (n =? 0)%Z then []
  else if (n <? 0)%Z then split_byte sep s
  else split_cuts sep (Z.to_nat (n - 1)) s.

(** [strings.Count(s, sep)] for a one-byte separator. *)
Fixpoint count_byte (sep : ascii) (s : string) : nat :=
  match s with
  | EmptyString => 0
  | String a s' => (if Ascii.eqb a sep then 1 else 0) + count_byte sep s'
  end.

(** [filepath.IsAbs(path)] (Unix). *)
Definition filepath_IsAbs (path : string) : bool := strings_HasPrefix path "/".

(** *** [strconv]

    The errors of [strconv] are [*NumError] values: the function that failed,
    its input, and one of [ErrSyntax] and [ErrRange]. *)
Inductive NumErr : Type :=
| ErrSyntax
| ErrRange.

Record NumError : Type := {
  Func : string;
  Num : string;
  Err : NumErr
}.

Definition syntaxError (fn str : string) : NumError :=
  {| Func := fn; Num := str; Err := ErrSyntax |}.

Definition rangeError (fn str : string) : NumError :=
  {| Func := fn; Num := str; Err := ErrRange |}.

(** The value of a byte. *)
Definition byte_val (c : ascii) : Z := Z.of_N (N_of_ascii c).

Definition maxUint64 : Z := 2 ^ 64 - 1.

(** The loop of [strconv.ParseUint] in base 10, over the bytes left, with the
    number read so far; [uint64] arithmetic wraps. A byte that is no decimal
    digit is a syntax error (a letter is a digit of a larger base, an
    underscore belongs to base 0 only); a number past [maxVal] is a range
    error, whose value is [maxVal]. *)
Fixpoint parse_uint_loop (maxVal : Z) (s : string) (n : Z) : Z * option NumErr :=
  match s with
  | EmptyString => (n, None)
  | String c rest =>
      if (48 <=? byte_val c)%Z && (byte_val c <=? 57)%Z then
        let d := (byte_val c - 48)%Z in
        if (n >=? maxUint64 / 10 + 1)%Z then (maxVal, Some ErrRange)
        else
          let n10 := ((n * 10) mod 2 ^ 64)%Z in
          let n1 := ((n10 + d) mod 2 ^ 64)%Z in
          if (n1 <? n10)%Z || (n1 >? maxVal)%Z then (maxVal, Some ErrRange)
          else parse_uint_loop maxVal rest n1
      else (0%Z, Some ErrSyntax)
  end.

(** [strconv.ParseUint(s, 10, bitSize)], for [bitSize] from 1 to 64. *)
Definition strconv_ParseUint10 (s : string) (bitSize : Z) : Z * option NumError :=
  if String.eqb s "" then (0%Z, Some (syntaxError "ParseUint" s))
  else
    let maxVal := (2 ^ bitSize - 1)%Z in
    match parse_uint_loop maxVal s 0 with
    | (n, None) => (n, None)
    | (n, Some e) => (n, Some {| Func := "ParseUint"; Num := s; Err := e |})
    end.

(** [strconv.ParseInt(s, 10, 0)] where [int] has 64 bits: an optional sign,
    then [ParseUint] of the rest, then the range of [int64]. *)
Definition strconv_ParseInt10 (s : string) : Z * option NumError :=
  match s with
  | EmptyString => (0%Z, Some (syntaxError "ParseInt" s))
  | String c rest =>
      let neg := Ascii.eqb c "-" in
      let body := if Ascii.eqb c "+" || Ascii.eqb c "-" then rest else s in
      let cutoff := (2 ^ 63)%Z in
      match strconv_ParseUint10 body 64 with
      | (_, Some {| Func := _; Num := _; Err := ErrSyntax |}) =>
          (0%Z, Some (syntaxError "ParseInt" s))
      | (un, _) =>
          if negb neg && (un >=? cutoff)%Z then
            ((cutoff - 1)%Z, Some (rangeError "ParseInt" s))
          else if neg && (un >? cutoff)%Z then
            ((- cutoff)%Z, Some (rangeError "ParseInt" s))
          else ((if neg then - un else un)%Z, None)
      end
  end.

(** The fast path of [strconv.Atoi], for inputs of 1 to 18 bytes: an optional
    sign and decimal digits, read without a range check. *)
Fixpoint atoi_digits (s : string) (n : Z) : option Z :=
  match s with
  | EmptyString => Some n
  | String c rest =>
      if (48 <=? byte_val c)%Z && (byte_val c <=? 57)%Z then
        atoi_digits rest (n * 10 + (byte_val c - 48))%Z
      else None
  end.

(** [strconv.Atoi(s)] where [int] has 64 bits. The slow path is [ParseInt],
    its error renamed. *)
Definition strconv_Atoi (s : string) : Z * option NumError :=
  let sLen := String.length s in
  if (0 <? sLen)%nat && (sLen <? 19)%nat then
    match s with
    | EmptyString => (0%Z, Some (syntaxError "Atoi" s))
    | String c rest =>
        let signed := Ascii.eqb c "-" || Ascii.eqb c "+" in
        let body := if signed then rest else s in
        if signed && (String.length body <? 1)%nat then
          (0%Z, Some (syntaxError "Atoi" s))
        else
          match atoi_digits body 0 with
          | None => (0%Z, Some (syntaxError "Atoi" s))
          | Some n => ((if Ascii.eqb c "-" then - n else n)%Z, None)
          end
    end
  else
    match strconv_ParseInt10 s with
    | (i64, Some e) => (i64, Some {| Func := "Atoi"; Num := Num e; Err := Err e |})
    | (i64, None) => (i64, None)
    end.

(** *** [fmt]: the verb [%03d]

    The decimal digits of a number, filled with zeros on the left up to the
    width; the sign of a negative number takes one place of the width. *)
Definition decimal (n : Z) : string :=
  NilEmpty.string_of_uint (N.to_uint (Z.to_N n)).

Fixpoint zeros (k : nat) : string :=
  match k with
  | O => ""
  | S k' => String "0" (zeros k')
  end.

Definition pad_zeros (width : nat) (digits : string) : string :=
  zeros (width - String.length digits) +:+ digits.

Definition fmt_0d (width : nat) (n : Z) : string :=
  if (n <? 0)%Z then "-" +:+ pad_zeros (width - 1) (decimal (- n))
  else pad_zeros width (decimal n).

(** *** Decimal strings, for the statements about [strconv]

    [all_digits s]: every byte of [s] is a decimal digit. [decimal_value s n]:
    the number written by the digits read so far, [n], followed by those of
    [s]. *)
Definition is_digit (c : ascii) : bool :=
  (48 <=? byte_val c)%Z && (byte_val c <=? 57)%Z.

Fixpoint all_digits (s : string) : bool :=
  match s with
  | EmptyString => true
  | String c rest => is_digit c && all_digits rest
  end.

Fixpoint decimal_value (s : string) (n : Z) : Z :=
  match s with
  | EmptyString => n
  | String c rest => decimal_value rest (n * 10 + (byte_val c - 48))%Z
  end.

(** ** [lxd/device]: USB event handlers *)

Module Device.

(** [USBDevice]: the properties of a USB device and a USB uevent. [Major] and
    [Minor] are [uint32], [UeventLen] is an [int]. *)
Record USBDevice : Type := {
  Action : string;
  Vendor : string;
  Product : string;
  Path : string;
  Major : Z;
  Minor : Z;
  UeventParts : list string;
  UeventLen : Z
}.

(** [InstanceIdentifier]: the two methods the registry calls. *)
Record InstanceIdentifier : Type := {
  Project : string;
  Name : string
}.

(** The byte [\000] and the one-byte string holding it. *)
Definition NUL : ascii := Ascii.zero.
Definition nul : string := String NUL EmptyString.

(** The key of a handler: the null delimited string of project name, instance
    name and device name,
    [fmt.Sprintf("%s\000%s\000%s", instance.Project(), instance.Name(), deviceName)]. *)
Definition usbKey (instance : InstanceIdentifier) (deviceName : string) : string :=
  fmt_Sprintf ("%s" +:+ nul +:+ "%s" +:+ nul +:+ "%s")
    [Project instance; Name instance; deviceName].

(** No byte of [s] is [\000]. *)
Fixpoint nul_free (s : string) : bool :=
  match s with
  | EmptyString => true
  | String a s' => negb (Ascii.eqb a NUL) && nul_free s'
  end.

(** [config.Device] is a [map[string]string]. *)
Definition USBIsOurDevice (config : gmap string string) (usb : USBDevice) : bool :=
  if (negb (String.eqb (go_index config "vendorid") "")
        && negb (String.eqb (go_index config "vendorid") (Vendor usb)))
     || (negb (String.eqb (go_index config "productid") "")
        && negb (String.eqb (go_index config "productid") (Product usb)))
  then false
  else true.

Section Handlers.

(** [RunConfig] is declared elsewhere in the package; the registry never
    looks inside it. *)
Variable RunConfig : Type.

(** A handler takes a [USBDevice] and returns a [RunConfig] pointer (nil
    is [None]) and an [error]; the nil function is [None]. *)
Definition Handler : Type :=
  option (USBDevice -> option RunConfig * error).

(** The package variable [usbHandlers]; [usbMutex] makes each of the two
    functions below one atomic step on it. *)
Definition USBRegisterHandler (instance : InstanceIdentifier)
    (deviceName : string) (handler : Handler)
    (usbHandlers : gmap string Handler) : gmap string Handler :=
  let key := usbKey instance deviceName in
  <[key := handler]> usbHandlers.

Definition USBUnregisterHandler (instance : InstanceIdentifier)
    (deviceName : string)
    (usbHandlers : gmap string Handler) : gmap string Handler :=
  let key := usbKey instance deviceName in
  delete key usbHandlers.

End Handlers.

Arguments Handler RunConfig : clear implicits.
Arguments USBRegisterHandler {RunConfig} instance deviceName handler usbHandlers.
Arguments USBUnregisterHandler {RunConfig} instance deviceName usbHandlers.

(** The zero value [USBDevice{}]. *)
Definition zeroUSBDevice : USBDevice :=
  {| Action := ""; Vendor := ""; Product := ""; Path := "";
     Major := 0; Minor := 0; UeventParts := []; UeventLen := 0 |}.

(** [USBDeviceLoad] instantiates a new [USBDevice] struct. The errors it
    returns are those of [strconv]. [uint32(x)] keeps the low 32 bits. *)
Definition USBDeviceLoad (action vendor product major minor busnum devnum
    devname : string) (ueventParts : list string) (ueventLen : Z)
  : USBDevice * option NumError :=
  let (majorInt, err) := strconv_ParseUint10 major 32 in
  match err with
  | Some e => (zeroUSBDevice, Some e)
  | None =>
      let (minorInt, err) := strconv_ParseUint10 minor 32 in
      match err with
      | Some e => (zeroUSBDevice, Some e)
      | None =>
          let loaded (path : string) : USBDevice * option NumError :=
            ({| Action := action;
                Vendor := vendor;
                Product := product;
                Path := path;
                Major := (majorInt mod 2 ^ 32)%Z;
                Minor := (minorInt mod 2 ^ 32)%Z;
                UeventParts := ueventParts;
                UeventLen := ueventLen |}, None) in
          if String.eqb devname "" then
            let (busnumInt, err) := strconv_Atoi busnum in
            match err with
            | Some e => (zeroUSBDevice, Some e)
            | None =>
                let (devnumInt, err) := strconv_Atoi devnum in
                match err with
                | Some e => (zeroUSBDevice, Some e)
                | None =>
                    (* fmt.Sprintf("/dev/bus/usb/%03d/%03d", busnumInt, devnumInt) *)
                    loaded ("/dev/bus/usb/" +:+ fmt_0d 3 busnumInt
                            +:+ "/" +:+ fmt_0d 3 devnumInt)
                end
            end
          else if negb (filepath_IsAbs devname) then
            loaded (fmt_Sprintf "/dev/%s" [devname])
          else loaded devname
      end
  end.

Section Dispatch.

(** Declared elsewhere in the repository, and parameters here: the run
    configuration a handler returns, the daemon state, the instances, the
    function variable [InstanceLoadByProjectAndName] and the method
    [DeviceEventHandler] of an instance, both on a world [World] they may
    read and change. A nil instance is [None]. *)
Variable RunConfig DaemonState Instance World : Type.

Variable InstanceLoadByProjectAndName :
  DaemonState -> string -> string -> World -> (option Instance * error) * World.

Variable DeviceEventHandler : Instance -> RunConfig -> World -> error * World.

(** One call of [logger.Error] with its context. *)
Record LogEntry : Type := {
  log_msg : string;
  log_err : string;
  log_project : string;
  log_instance : string;
  log_device : string
}.

(** What a run of the handlers reads and changes: the package variable
    [usbHandlers], the world, and the log. *)
Record Dispatch : Type := {
  handlers : gmap string (Handler RunConfig);
  world : World;
  logged : list LogEntry
}.

Definition log_error (r : Dispatch) (w : World) (msg err projectName
    instanceName deviceName : string) : Dispatch :=
  {| handlers := handlers r;
     world := w;
     logged := logged r ++ [ {| log_msg := msg; log_err := err;
                                log_project := projectName;
                                log_instance := instanceName;
                                log_device := deviceName |} ] |}.

(** The body of the loop of [USBRunHandlers], for one key and its hook.
    [None] is a run-time panic: an index past the end of [keyParts], or the
    call of a method on a nil instance. *)
Definition run_hook (state : DaemonState) (event : USBDevice) (key : string)
    (hook : Handler RunConfig) (r : Dispatch) : option Dispatch :=
  match strings_SplitN key NUL 3 with
  | projectName :: instanceName :: deviceName :: _ =>
      match hook with
      | None =>
          Some {| handlers := delete key (handlers r);
                  world := world r;
                  logged := logged r |}
      | Some f =>
          let (runConf, err) := f event in
          match err with
          | Some e =>
              Some (log_error r (world r) "USB event hook failed" e
                      projectName instanceName deviceName)
          | None =>
              (* If runConf supplied, load instance and call its USB event
                 handler function. *)
              match runConf with
              | None => Some r
              | Some rc =>
                  let '((instance, err), w) :=
                    InstanceLoadByProjectAndName state projectName
                      instanceName (world r) in
                  match err with
                  | Some e =>
                      Some (log_error r w "USB event loading instance failed"
                              e projectName instanceName deviceName)
                  | None =>
                      match instance with
                      | None => None
                      | Some inst =>
                          let (err, w') := DeviceEventHandler inst rc w in
                          match err with
                          | Some e =>
                              Some (log_error r w'
                                      "USB event instance handler failed" e
                                      projectName instanceName deviceName)
                          | None =>
                              Some {| handlers := handlers r;
                                      world := w';
                                      logged := logged r |}
                          end
                      end
                  end
              end
          end
      end
  | _ => None
  end.

(** [USBRunHandlers] executes any handlers registered for USB events. Go
    leaves the order of a [range] over a map open: [order] is the order of
    this run, the keys as the loop comes to them. A key whose entry is gone
    when the loop comes to it is not produced. [event] is the value the
    pointer of the caller points to. *)
Fixpoint USBRunHandlers (state : DaemonState) (event : USBDevice)
    (order : list string) (r : Dispatch) : option Dispatch :=
  match order with
  | [] => Some r
  | key :: rest =>
      match handlers r !! key with
      | None => USBRunHandlers state event rest r
      | Some hook =>
          match run_hook state event key hook r with
          | None => None
          | Some r' => USBRunHandlers state event rest r'
          end
      end
  end.

(** What a run leaves of an entry: nothing of a nil hook, and any other entry
    as it is. *)
Definition pruned (o : option (Handler RunConfig))
  : option (Handler RunConfig) :=
  match o with
  | Some None => None
  | _ => o
  end.

(** An order a [range] over the map can take: each key once. *)
Definition range_order (m : gmap string (Handler RunConfig))
    (order : list string) : Prop :=
  NoDup order /\ forall k : string, k ∈ order <-> is_Some (m !! k).

(** Every key of the registry was made by [usbKey]. *)
Definition keyed (m : gmap string (Handler RunConfig)) : Prop :=
  forall k : string, is_Some (m !! k) ->
    exists (i : InstanceIdentifier) (d : string), k = usbKey i d.

End Dispatch.

Arguments handlers {RunConfig World} _.
Arguments world {RunConfig World} _.
Arguments logged {RunConfig World} _.
Arguments log_error {RunConfig World} r w msg err projectName instanceName
  deviceName.
Arguments run_hook {RunConfig DaemonState Instance World}
  InstanceLoadByProjectAndName DeviceEventHandler state event key hook r.
Arguments USBRunHandlers {RunConfig DaemonState Instance World}
  InstanceLoadByProjectAndName DeviceEventHandler state event order r.
Arguments pruned {RunConfig} o.
Arguments range_order {RunConfig} m order.
Arguments keyed {RunConfig} m.

End Device.

(** ** [lxd/storage/drivers]: the [dir] driver *)

Module Drivers.

(** [VolumeType] and its four constants. *)
Inductive VolumeType : Type :=
| VolumeTypeCustom
| VolumeTypeImage
| VolumeTypeContainer
| VolumeTypeVM.

(** The [Info] struct a driver describes itself with. *)
Record Info : Type := {
  Name : string;
  Version : string;
  OptimizedImages : bool;
  PreservesInodes : bool;
  Remote : bool;
  VolumeTypes : list VolumeType;
  BlockBacking : bool;
  RunningQuotaResize : bool;
  RunningSnapshotFreeze : bool
}.

(** [dir] embeds [common]; of its fields the driver reads [name] and reads and
    writes [config]. The caller hands the driver a non-nil [config] map. *)
Record dir : Type := {
  name : string;
  config : gmap string string
}.

(** [unix.MS_BIND]. *)
Definition MS_BIND : Z := 4096.

(** The functions of the host that the driver calls and that live outside
    [driver_dir.go], one constructor per call with its arguments. A run of a
    driver method leaves the list of the calls it made, in order. *)
Inductive Call : Type :=
| CallPathExists (path : string)
| CallPathIsEmpty (path : string)
| CallWipeDirectory (path : string)
| CallSameMount (srcPath dstPath : string)
| CallTryMount (src dst fs : string) (flags : Z) (options : string)
| CallForceUnmount (path : string).

(** What those functions do on a host of state [W]. The driver is written
    against this interface; nothing below depends on how a host implements it.
      - [VarPath]            : [shared.VarPath()], the LXD directory;
      - [GetPoolMountPath]   : the mount path of a pool, by its name;
      - [os_PathExists]      : [shared.PathExists];
      - [os_PathIsEmpty]     : [shared.PathIsEmpty], a [(bool, error)];
      - [os_wipeDirectory]   : [wipeDirectory];
      - [os_sameMount]       : [sameMount];
      - [os_TryMount]        : [TryMount(src, dst, fs, flags, options)];
      - [os_forceUnmount]    : [forceUnmount], a [(bool, error)]. *)
Class Host (W : Type) : Type := {
  VarPath : string;
  GetPoolMountPath : string -> string;
  os_PathExists : string -> W -> bool;
  os_PathIsEmpty : string -> W -> bool * error;
  os_wipeDirectory : string -> W -> error * W;
  os_sameMount : string -> string -> W -> bool;
  os_TryMount : string -> string -> string -> Z -> string -> W -> error * W;
  os_forceUnmount : string -> W -> (bool * error) * W
}.

Section Driver.

Context {W : Type} {host : Host W}.

(** [operations.Operation], which [Delete] receives and does not use. *)
Variable Operation : Type.

(** The state a method runs in: the receiver [d], the host, and the calls
    made so far. *)
Record State : Type := {
  self : dir;
  os : W;
  calls : list Call
}.

Definition M (A : Type) : Type := State -> A * State.

Definition ret {A : Type} (a : A) : M A := fun st => (a, st).

Definition bind {A B : Type} (m : M A) (k : A -> M B) : M B :=
  fun st => let (a, st') := m st in k a st'.

(** [d.name] and [d.config[key]], read and written through the receiver. *)
Definition d_name : M string := fun st => (name (self st), st).

Definition config_get (key : string) : M string :=
  fun st => (go_index (config (self st)) key, st).

Definition config_set (key value : string) : M unit :=
  fun st =>
    (tt, {| self := {| name := name (self st);
                       config := <[key := value]> (config (self st)) |};
            os := os st;
            calls := calls st |}).

(** A call of the host: recorded, then run on the host's state. *)
Definition call {A : Type} (c : Call) (f : W -> A * W) : M A :=
  fun st =>
    let (a, w) := f (os st) in
    (a, {| self := self st; os := w; calls := calls st ++ [c] |}).

Definition PathExists (path : string) : M bool :=
  call (CallPathExists path) (fun w => (os_PathExists path w, w)).

Definition PathIsEmpty (path : string) : M (bool * error) :=
  call (CallPathIsEmpty path) (fun w => (os_PathIsEmpty path w, w)).

Definition wipeDirectory (path : string) : M error :=
  call (CallWipeDirectory path) (os_wipeDirectory path).

Definition sameMount (srcPath dstPath : string) : M bool :=
  call (CallSameMount srcPath dstPath)
       (fun w => (os_sameMount srcPath dstPath w, w)).

Definition TryMount (src dst fs : string) (flags : Z) (options : string)
  : M error :=
  call (CallTryMount src dst fs flags options)
       (os_TryMount src dst fs flags options).

Definition forceUnmount (path : string) : M (bool * error) :=
  call (CallForceUnmount path) (os_forceUnmount path).

Local Notation "x <- m ;; k" := (bind m (fun x => k))
  (at level 100, m at next level, right associativity).

(** [Info] returns info about the driver and its environment. *)
Definition dir_Info : M Info :=
  ret {| Name := "dir";
         Version := "1";
         OptimizedImages := false;
         PreservesInodes := false;
         Remote := false;
         VolumeTypes := [VolumeTypeCustom; VolumeTypeImage;
                         VolumeTypeContainer; VolumeTypeVM];
         BlockBacking := false;
         RunningQuotaResize := true;
         RunningSnapshotFreeze := true |}.

(** [Create] is called during pool creation. *)
Definition Create : M error :=
  (* Set default source if missing. *)
  source <- config_get "source" ;;
  _ <- (if String.eqb source "" then
          name <- d_name ;;
          config_set "source" (GetPoolMountPath name)
        else ret tt) ;;
  source <- config_get "source" ;;
  exists_ <- PathExists source ;;
  if negb exists_ then
    ret (fmt_Errorf "Source path '%s' doesn't exist" [source])
  else
    (* Check that if within LXD_DIR, we're at our expected spot. *)
    let cleanSource := filepath_Clean source in
    name <- d_name ;;
    if strings_HasPrefix cleanSource VarPath
       && negb (String.eqb cleanSource (GetPoolMountPath name))
    then
      ret (fmt_Errorf "Source path '%s' is within the LXD directory" [source])
    else
      (* Check that the path is currently empty. *)
      r <- PathIsEmpty source ;;
      let (isEmpty, err) := r in
      match err with
      | Some e => ret (Some e)
      | None =>
          if negb isEmpty then
            ret (fmt_Errorf "Source path '%s' isn't empty" [source])
          else ret None
      end.

(** [Mount] mounts the storage pool. *)
Definition Mount : M (bool * error) :=
  name <- d_name ;;
  let path := GetPoolMountPath name in
  (* Check if we're dealing with an external mount. *)
  source <- config_get "source" ;;
  if String.eqb source path then ret (false, None)
  else
    (* Check if already mounted. *)
    same <- sameMount source path ;;
    if same then ret (false, None)
    else
      (* Setup the bind-mount. *)
      err <- TryMount source path "none" MS_BIND "" ;;
      match err with
      | Some e => ret (false, Some e)
      | None => ret (true, None)
      end.

(** [Unmount] unmounts the storage pool. *)
Definition Unmount : M (bool * error) :=
  name <- d_name ;;
  let path := GetPoolMountPath name in
  (* Check if we're dealing with an external mount. *)
  source <- config_get "source" ;;
  if String.eqb source path then ret (false, None)
  else
    (* Unmount until nothing is left mounted. *)
    forceUnmount path.

(** [Delete] removes the storage pool from the storage device. [op] may be
    the nil pointer. *)
Definition Delete (op : option Operation) : M error :=
  (* On delete, wipe everything in the directory. *)
  name <- d_name ;;
  err <- wipeDirectory (GetPoolMountPath name) ;;
  match err with
  | Some e => ret (Some e)
  | None =>
      (* Unmount the path. *)
      r <- Unmount ;;
      let (_, err) := r in
      match err with
      | Some e => ret (Some e)
      | None => ret None
      end
  end.

(** [Validate] and [Update] accept every configuration. *)
Definition Validate (config : gmap string string) : M error := ret None.

Definition Update (changedConfig : gmap string string) : M error := ret None.

(** *** Notions the properties are stated with *)

(** The configured source of a driver, [d.config["source"]]. *)
Definition source_of (d : dir) : string := go_index (config d) "source".

(** The mount path of the pool of a driver. *)
Definition mount_path (d : dir) : string := GetPoolMountPath (name d).

(** A driver once the missing source has been set to the mount path of its
    pool. *)
Definition with_default_source (d : dir) : dir :=
  if String.eqb (source_of d) "" then
    {| name := name d;
       config := <["source" := mount_path d]> (config d) |}
  else d.

(** The cleaned source of a driver starts with the LXD directory and is not
    the mount path of its pool. *)
Definition within_LXD_dir (d : dir) : bool :=
  strings_HasPrefix (filepath_Clean (source_of d)) VarPath
  && negb (String.eqb (filepath_Clean (source_of d)) (mount_path d)).

(** The state reached from [st] with receiver [d] and host state [w] after
    the calls [cs]. *)
Definition after (st : State) (d : dir) (w : W) (cs : list Call) : State :=
  {| self := d; os := w; calls := calls st ++ cs |}.

End Driver.

Arguments State W : clear implicits.
Arguments M W A : clear implicits.
Arguments Delete {W host Operation} op _.

End Drivers.

(** ** A host of the driver, after the specification

    The functions of [Drivers.Host] are defined in files of the repository
    other than the two embedded here. [SpecHost] is one host, written from
    what the specification says of them (4.3, the pool path resolver, and
    4.4, the mount primitives), on a flat picture of the file system: the
    directories that exist, each with the names of its entries, and the mount
    table. The concrete runs of the driver below are on this host. *)

Module SpecHost.

(** Modelled from the spec: the part of the operating system the mount
    primitives and the path checks read and change.
      - [entries]    : the directories that exist, by path, each with the
                       names of its entries;
      - [mounted]    : the mount table, newest first: a mount point and the
                       directory attached there;
      - [busy]       : mount points the system refuses to unmount;
      - [unwipeable] : directories whose contents the system refuses to
                       remove. *)
Record World : Type := {
  entries : gmap string (list string);
  mounted : list (string * string);
  busy : list string;
  unwipeable : list string
}.

Definition mem (x : string) (l : list string) : bool :=
  existsb (String.eqb x) l.

(** Modelled from the spec: the operating system's mount table, which the
    mount primitives of 4.4 read; the directory attached at a mount point,
    newest mount first. *)
Definition lookup_mount (path : string) (tbl : list (string * string))
  : option string :=
  match List.find (fun m => String.eqb (fst m) path) tbl with
  | Some m => Some (snd m)
  | None => None
  end.

(** Modelled from the spec: resolving a path through the mount table, which
    the mount primitives of 4.4 rest on; the directory a path shows is the
    one mounted on it if it is a mount point, and itself otherwise. *)
Definition shown (w : World) (path : string) : string :=
  default path (lookup_mount path (mounted w)).

(** Modelled from the spec: whether the operating system reports a path as a
    mount point, the test of unmount-until-clear (4.4). *)
Definition IsMountPoint (path : string) (w : World) : bool :=
  match lookup_mount path (mounted w) with
  | Some _ => true
  | None => false
  end.

(** Modelled from the spec: the unmount of the operating system, issued by
    unmount-until-clear (4.4); one unmount removes the newest mount on a
    path. *)
Fixpoint unmount_top (path : string) (tbl : list (string * string))
  : list (string * string) :=
  match tbl with
  | [] => []
  | m :: rest =>
      if String.eqb (fst m) path then rest else m :: unmount_top path rest
  end.

(** Modelled from the spec: [shared.VarPath()], the managed storage root the
    host state supplies (6); the value is the default LXD directory. *)
Definition managedRoot : string := "/var/lib/lxd".

(** Modelled from the spec: the sanitising of a pool name inside
    [GetPoolMountPath] (4.3); it normalises the path-traversal sequences in
    the name, with the normalisation the containment check of [Create] uses
    ([filepath_Clean], of the name taken as a rooted path). *)
Definition sanitize (poolName : string) : string :=
  match filepath_Clean ("/" +:+ poolName) with
  | String _ rest => rest
  | EmptyString => ""
  end.

(** Modelled from the spec: [GetPoolMountPath], the pool path resolver (4.3),
    [canonicalPath(poolName) = managedRoot + "/storage-pools/" + sanitize(poolName)]. *)
Definition canonicalPath (poolName : string) : string :=
  managedRoot +:+ "/storage-pools/" +:+ sanitize poolName.

(** Modelled from the spec: [shared.PathExists], the existence check of
    [Create] (4.2); a path exists when the directory it shows does. *)
Definition PathExists (path : string) (w : World) : bool :=
  match entries w !! shown w path with
  | Some _ => true
  | None => false
  end.

(** Modelled from the spec: [shared.PathIsEmpty], the emptiness check of
    [Create] (4.2); a path is empty when the directory it shows has no
    entries, and asking of a path that does not exist is an error of the
    system. *)
Definition PathIsEmpty (path : string) (w : World) : bool * error :=
  match entries w !! shown w path with
  | Some [] => (true, None)
  | Some (_ :: _) => (false, None)
  | None => (false, fmt_Errorf "open %s: no such file or directory" [path])
  end.

(** Modelled from the spec: [wipeDirectory], the recursive wipe of [Delete]
    (4.2); it removes the entries of a directory and every directory below
    it, and fails, changing nothing, on a directory that does not exist or
    that the system protects. *)
Definition wipeDirectory (path : string) (w : World) : error * World :=
  let target := shown w path in
  if mem target (unwipeable w) then
    (fmt_Errorf "Failed to remove '%s'" [path], w)
  else
    match entries w !! target with
    | None => (fmt_Errorf "open %s: no such file or directory" [path], w)
    | Some _ =>
        let below (kv : string * list string) : Prop :=
          strings_HasPrefix (fst kv) (target +:+ "/") = false in
        (None, {| entries := <[target := []]> (filter below (entries w));
                  mounted := mounted w;
                  busy := busy w;
                  unwipeable := unwipeable w |})
    end.

(** Modelled from the spec: [sameMount], the mount-identity comparison (4.4),
    whether two paths currently resolve to the same directory; not string
    equality of the paths. *)
Definition sameMount (srcPath dstPath : string) (w : World) : bool :=
  PathExists srcPath w && PathExists dstPath w
  && String.eqb (shown w srcPath) (shown w dstPath).

(** Modelled from the spec: [TryMount], mount-with-setup (4.4). The target
    directory is created if absent; the mount attaches what the source shows
    at the target; it fails, with an error naming source and target, when the
    source does not exist. The driver asks for bind mounts only. *)
Definition TryMount (src dst fs : string) (flags : Z) (options : string)
    (w : World) : error * World :=
  let made :=
    match entries w !! dst with
    | Some _ => entries w
    | None => <[dst := []]> (entries w)
    end in
  let w1 := {| entries := made; mounted := mounted w;
               busy := busy w; unwipeable := unwipeable w |} in
  if PathExists src w1 then
    (None, {| entries := made;
              mounted := (dst, shown w src) :: mounted w;
              busy := busy w;
              unwipeable := unwipeable w |})
  else (fmt_Errorf "Failed to mount '%s' on '%s'" [src; dst], w1).

(** Modelled from the spec: the bound on the retries of [forceUnmount]; the
    specification (4.4) asks for one and names no number. *)
Definition unmountRetries : nat := 20.

(** Modelled from the spec: the loop of [forceUnmount], unmount-until-clear
    (4.4). A path that is not mounted is a success; each turn removes one
    mount; a refusal of the system is returned as an error, and so is a path
    still mounted when the retries are used up. *)
Fixpoint unmountLoop (retries : nat) (path : string) (unmounted : bool)
    (w : World) : (bool * error) * World :=
  if negb (IsMountPoint path w) then ((unmounted, None), w)
  else
    match retries with
    | O => ((false, fmt_Errorf "Failed to unmount '%s': still mounted" [path]), w)
    | S n =>
        if mem path (busy w) then
          ((false, fmt_Errorf "Failed to unmount '%s': device or resource busy" [path]), w)
        else
          unmountLoop n path true
            {| entries := entries w;
               mounted := unmount_top path (mounted w);
               busy := busy w;
               unwipeable := unwipeable w |}
    end.

(** Modelled from the spec: [forceUnmount], unmount-until-clear (4.4), with
    its bound. *)
Definition forceUnmount (path : string) (w : World) : (bool * error) * World :=
  unmountLoop unmountRetries path false w.

(** The host made of the definitions above. *)
Definition host : Drivers.Host World := {|
  Drivers.VarPath := managedRoot;
  Drivers.GetPoolMountPath := canonicalPath;
  Drivers.os_PathExists := PathExists;
  Drivers.os_PathIsEmpty := PathIsEmpty;
  Drivers.os_wipeDirectory := wipeDirectory;
  Drivers.os_sameMount := sameMount;
  Drivers.os_TryMount := TryMount;
  Drivers.os_forceUnmount := forceUnmount
|}.

End SpecHost.

(** ** Concrete inputs

    The instances, pools and hosts the properties below are run on. *)

Module Examples.

(** Two instances, each with a device, whose names differ and whose handler
    keys are the same string: the instance name of the first and the project
    name of the second hold a [\000]. *)
Definition inst_a : Device.InstanceIdentifier :=
  {| Device.Project := "a";
     Device.Name := "b" +:+ Device.nul +:+ "c" |}.

Definition inst_ab : Device.InstanceIdentifier :=
  {| Device.Project := "a" +:+ Device.nul +:+ "b";
     Device.Name := "c" |}.

(** Two instances of the project [default]. *)
Definition inst_c1 : Device.InstanceIdentifier :=
  {| Device.Project := "default"; Device.Name := "c1" |}.

Definition inst_c2 : Device.InstanceIdentifier :=
  {| Device.Project := "default"; Device.Name := "c2" |}.

(** A handler that asks for nothing to be done. *)
Definition quiet : Device.Handler unit := Some (fun _ => (None, None)).

(** The registry holding [quiet] for device [d] of [inst_ab] and nothing
    else. *)
Definition registry_ab : gmap string (Device.Handler unit) :=
  Device.USBRegisterHandler inst_ab "d" quiet ∅.

(** A USB event, and device configurations that select by vendor and
    product. *)
Definition yubikey : Device.USBDevice :=
  {| Device.Action := "add";
     Device.Vendor := "1050";
     Device.Product := "0407";
     Device.Path := "/dev/bus/usb/001/004";
     Device.Major := 189;
     Device.Minor := 3;
     Device.UeventParts := [];
     Device.UeventLen := 0 |}.

(** Three handlers for the runs of [USBRunHandlers]: the one of [usb0] of
    [c1] asks for a run configuration, the one of [usb0] of [c2] fails, the
    one of [usb1] of [c1] is nil. *)
Definition registry3 : gmap string (Device.Handler unit) :=
  Device.USBRegisterHandler inst_c1 "usb0" (Some (fun _ => (Some tt, None)))
    (Device.USBRegisterHandler inst_c2 "usb0"
       (Some (fun _ => (None, Some "no such device")))
       (Device.USBRegisterHandler inst_c1 "usb1" None ∅)).

(** An order of the three keys. *)
Definition order3 : list string :=
  [Device.usbKey inst_c2 "usb0"; Device.usbKey inst_c1 "usb1";
   Device.usbKey inst_c1 "usb0"].

(** A loader that knows the instances named [c1] and [c2], an instance being
    its project and name, and an instance handler that writes the instance
    down in the world, a list. *)
Definition load_known (state : unit) (projectName instanceName : string)
    (w : list string) : (option string * error) * list string :=
  if String.eqb instanceName "c1" || String.eqb instanceName "c2" then
    ((Some (projectName +:+ "/" +:+ instanceName), None), w)
  else ((None, Some "Instance not found"), w).

Definition handle_record (inst : string) (rc : unit) (w : list string)
  : error * list string :=
  (None, (w ++ [inst])%list).

Definition dispatch3 : Device.Dispatch unit (list string) :=
  {| Device.handlers := registry3; Device.world := []; Device.logged := [] |}.

(** [dispatch3] after a run in the order [order3]. *)
Definition dispatch3_after : Device.Dispatch unit (list string) :=
  {| Device.handlers :=
       Device.USBRegisterHandler inst_c1 "usb0"
         (Some (fun _ => (Some tt, None)))
         (Device.USBRegisterHandler inst_c2 "usb0"
            (Some (fun _ => (None, Some "no such device"))) ∅);
     Device.world := ["default/c1"];
     Device.logged :=
       [ {| Device.log_msg := "USB event hook failed";
            Device.log_err := "no such device";
            Device.log_project := "default";
            Device.log_instance := "c2";
            Device.log_device := "usb0" |} ] |}.

(** A registry of a handler that asks for nothing and of a nil handler, and
    what a run leaves of it. *)
Definition dispatch_quiet : Device.Dispatch unit (list string) :=
  {| Device.handlers :=
       Device.USBRegisterHandler inst_c1 "usb0" quiet
         (Device.USBRegisterHandler inst_c1 "usb1" None ∅);
     Device.world := [];
     Device.logged := [] |}.

Definition dispatch_quiet_after : Device.Dispatch unit (list string) :=
  {| Device.handlers := Device.USBRegisterHandler inst_c1 "usb0" quiet ∅;
     Device.world := [];
     Device.logged := [] |}.

(** A host with an empty directory [/mnt/data], a directory [/mnt/full]
    holding [a.txt], the pool directories of [default] and [other], and
    nothing mounted. *)
Definition world0 : SpecHost.World :=
  {| SpecHost.entries :=
       {[ "/mnt/data" := [];
          "/mnt/full" := ["a.txt"];
          "/var/lib/lxd/storage-pools/default" := [];
          "/var/lib/lxd/storage-pools/other" := [] ]};
     SpecHost.mounted := [];
     SpecHost.busy := [];
     SpecHost.unwipeable := [] |}.

(** [world0] with the pool directory of [data] protected against removal of
    its contents. *)
Definition world_protected : SpecHost.World :=
  {| SpecHost.entries :=
       <["/var/lib/lxd/storage-pools/data" := ["containers"]]>
         (SpecHost.entries world0);
     SpecHost.mounted := [("/var/lib/lxd/storage-pools/data", "/mnt/data")];
     SpecHost.busy := [];
     SpecHost.unwipeable := ["/mnt/data"] |}.

(** A driver of pool [poolName] whose configuration is [cfg], on host state
    [w], before any call. *)
Definition start (poolName : string) (cfg : gmap string string)
    (w : SpecHost.World) : Drivers.State SpecHost.World :=
  {| Drivers.self := {| Drivers.name := poolName; Drivers.config := cfg |};
     Drivers.os := w;
     Drivers.calls := [] |}.

(** Pool [data] with the source [/mnt/data], an empty directory. *)
Definition pool_data : Drivers.State SpecHost.World :=
  start "data" {[ "source" := "/mnt/data" ]} world0.

(** [pool_data] after [Mount]. *)
Definition pool_data_mounted : Drivers.State SpecHost.World :=
  snd (Drivers.Mount (host := SpecHost.host) pool_data).

(** Pool [bad] with the source [/mnt/full], which holds [a.txt]. *)
Definition pool_bad : Drivers.State SpecHost.World :=
  start "bad" {[ "source" := "/mnt/full" ]} world0.

(** Pool [default] with no source configured, and with its own mount path
    configured as the source. *)
Definition pool_default : Drivers.State SpecHost.World :=
  start "default" ∅ world0.

Definition pool_default_self : Drivers.State SpecHost.World :=
  start "default" {[ "source" := "/var/lib/lxd/storage-pools/default" ]} world0.

(** Pool [data] with the pool directory of [other] as its source, a directory
    that exists; and with a source below the LXD directory that does not
    exist. *)
Definition pool_nested : Drivers.State SpecHost.World :=
  start "data" {[ "source" := "/var/lib/lxd/storage-pools/other" ]} world0.

Definition pool_nested_missing : Drivers.State SpecHost.World :=
  start "data" {[ "source" := "/var/lib/lxd/storage-pools/missing" ]} world0.


(** Pool [data], mounted from [/mnt/data], on the host that protects
    [/mnt/data]. *)
Definition pool_protected : Drivers.State SpecHost.World :=
  start "data" {[ "source" := "/mnt/data" ]} world_protected.

End Examples.

(** * Properties *)

(** ** Strings *)

Lemma append_cons (c : ascii) (s t : string) :
  String c s +:+ t = String c (s +:+ t).
Proof. reflexivity. Qed.

Lemma append_empty_l (t : string) : "" +:+ t = t.
Proof. reflexivity. Qed.

Lemma append_empty_r (s : string) : s +:+ "" = s.
Proof.
  induction s as [|c s IH]; [reflexivity |].
  rewrite append_cons. f_equal. exact IH.
Qed.

Lemma eqb_false_iff (s t : string) : String.eqb s t = false <-> s <> t.
Proof.
  destruct (String.eqb_spec s t); split; congruence.
Qed.

(** ** USB handlers *)

Section DeviceFacts.

Import Device.

Lemma usbKey_unfold (i : InstanceIdentifier) (d : string) :
  usbKey i d = Project i +:+ String NUL (Name i +:+ String NUL d).
Proof.
  unfold usbKey. simpl. now rewrite append_empty_r.
Qed.

(** Two strings that hold no [\000], each followed by a [\000] and a rest,
    are equal when the results are, and so are the rests: the first [\000]
    of the result is the delimiter. *)
Lemma nul_delimited_inj (a a' b b' : string) :
  nul_free a = true -> nul_free a' = true ->
  a +:+ String NUL b = a' +:+ String NUL b' -> a = a' /\ b = b'.
Proof.
  revert a'. induction a as [|c a IH]; intros [|c' a'] Ha Ha' E;
    rewrite ?append_cons, ?append_empty_l in E; simpl in Ha, Ha'.
  - now inversion E.
  - inversion E as [[Hc Hb]]. subst c'.
    rewrite (proj2 (Ascii.eqb_eq NUL NUL) eq_refl) in Ha'. discriminate.
  - inversion E as [[Hc Hb]]. subst c.
    rewrite (proj2 (Ascii.eqb_eq NUL NUL) eq_refl) in Ha. discriminate.
  - inversion E as [[Hc Hr]]. subst c'.
    apply andb_prop in Ha as [_ Ha]. apply andb_prop in Ha' as [_ Ha'].
    destruct (IH a' Ha Ha' Hr) as [-> ->]. now split.
Qed.

(** The key determines project name, instance name and device name, for
    project and instance names without a [\000]. *)
Lemma usbKey_inj (i i' : InstanceIdentifier) (d d' : string) :
  nul_free (Project i) = true -> nul_free (Name i) = true ->
  nul_free (Project i') = true -> nul_free (Name i') = true ->
  usbKey i d = usbKey i' d' -> i = i' /\ d = d'.
Proof.
  intros Hp Hn Hp' Hn'. rewrite !usbKey_unfold. intros E.
  destruct (nul_delimited_inj _ _ _ _ Hp Hp' E) as [Ep E2].
  destruct (nul_delimited_inj _ _ _ _ Hn Hn' E2) as [En Ed].
  destruct i, i'; simpl in *; subst. now split.
Qed.

(** C10: [USBIsOurDevice] answers true exactly when the configured
    [vendorid] is empty or is the vendor of the event, and the configured
    [productid] is empty or is the product of the event. *)
Theorem USBIsOurDevice_iff (config : gmap string string) (usb : USBDevice) :
  USBIsOurDevice config usb = true <->
  (go_index config "vendorid" = "" \/ go_index config "vendorid" = Vendor usb)
  /\ (go_index config "productid" = ""
      \/ go_index config "productid" = Product usb).
Proof.
  unfold USBIsOurDevice.
  destruct (String.eqb_spec (go_index config "vendorid") "") as [Ev|Ev];
  destruct (String.eqb_spec (go_index config "vendorid") (Vendor usb)) as [Ev'|Ev'];
  destruct (String.eqb_spec (go_index config "productid") "") as [Ep|Ep];
  destruct (String.eqb_spec (go_index config "productid") (Product usb)) as [Ep'|Ep'];
  simpl; split; intros H; try discriminate; try reflexivity;
  try (split; [ first [now left | now right] | first [now left | now right] ]);
  destruct H as [[?|?] [?|?]]; contradiction.
Qed.

End DeviceFacts.

Section RegistryFacts.

Import Device.

(** C9 as stated fails. [inst_a] with device [d] and [inst_ab] with device
    [d] are different triples with one key: unregistering the first removes
    the handler registered under the second, and registering a handler under
    the first replaces it. *)
Lemma usb_key_collision :
  (Examples.inst_a, "d") <> (Examples.inst_ab, "d")
  /\ Examples.registry_ab !! usbKey Examples.inst_ab "d" = Some Examples.quiet
  /\ USBUnregisterHandler Examples.inst_a "d" Examples.registry_ab
       !! usbKey Examples.inst_ab "d" = None
  /\ USBRegisterHandler Examples.inst_a "d" None Examples.registry_ab
       !! usbKey Examples.inst_ab "d" = Some None.
Proof.
  split; [intros E; inversion E |].
  assert (K : usbKey Examples.inst_a "d" = usbKey Examples.inst_ab "d")
    by reflexivity.
  unfold Examples.registry_ab, USBRegisterHandler, USBUnregisterHandler.
  rewrite K. split; [| split].
  - apply lookup_insert_eq.
  - apply lookup_delete_eq.
  - apply lookup_insert_eq.
Qed.

(** C9, amended: unregistering what was registered leaves no entry under the
    key of that project, instance and device; and registering or
    unregistering under one triple leaves the entry of every other triple as
    it was, for triples whose project and instance names hold no [\000]. *)
Theorem usb_register_unregister (RunConfig : Type)
    (i : InstanceIdentifier) (d : string) (h : Handler RunConfig)
    (reg : gmap string (Handler RunConfig)) :
  USBUnregisterHandler i d (USBRegisterHandler i d h reg) !! usbKey i d = None
  /\ forall (i' : InstanceIdentifier) (d' : string),
       nul_free (Project i) = true -> nul_free (Name i) = true ->
       nul_free (Project i') = true -> nul_free (Name i') = true ->
       (i, d) <> (i', d') ->
       USBRegisterHandler i d h reg !! usbKey i' d' = reg !! usbKey i' d'
       /\ USBUnregisterHandler i d reg !! usbKey i' d' = reg !! usbKey i' d'.
Proof.
  unfold USBRegisterHandler, USBUnregisterHandler. split.
  - apply lookup_delete_eq.
  - intros i' d' Hp Hn Hp' Hn' Hne.
    assert (Hk : usbKey i d <> usbKey i' d').
    { intros E. destruct (usbKey_inj _ _ _ _ Hp Hn Hp' Hn' E) as [-> ->].
      now apply Hne. }
    split.
    + now apply lookup_insert_ne.
    + now apply lookup_delete_ne.
Qed.

Lemma usb_register_unregister_witness :
  USBRegisterHandler Examples.inst_c1 "usb0" Examples.quiet Examples.registry_ab
    !! usbKey Examples.inst_c2 "usb0"
  = Examples.registry_ab !! usbKey Examples.inst_c2 "usb0"
  /\ USBUnregisterHandler Examples.inst_c1 "usb0" Examples.registry_ab
       !! usbKey Examples.inst_c2 "usb0"
     = Examples.registry_ab !! usbKey Examples.inst_c2 "usb0".
Proof.
  apply (proj2 (usb_register_unregister unit Examples.inst_c1 "usb0"
                  Examples.quiet Examples.registry_ab)
               Examples.inst_c2 "usb0");
    try reflexivity.
  intros E. inversion E.
Defined.

(** [USBIsOurDevice] on an event of vendor [1050] and product [0407]: a
    configuration that names neither takes it, one that names the vendor
    takes it, one that names the vendor and another product does not. *)
Lemma USBIsOurDevice_yubikey :
  USBIsOurDevice ∅ Examples.yubikey = true
  /\ USBIsOurDevice {[ "vendorid" := "1050" ]} Examples.yubikey = true
  /\ USBIsOurDevice {[ "vendorid" := "1050"; "productid" := "0110" ]}
       Examples.yubikey = false.
Proof. repeat split; vm_compute; reflexivity. Qed.

End RegistryFacts.

(** ** The [dir] driver *)

Section DriverFacts.

Import Drivers.

Context {W : Type} {host : Host W}.

(** Unfolds the monad and the recorded calls of a driver method. *)
Ltac run :=
  unfold bind, ret, d_name, config_get, config_set, PathExists, PathIsEmpty,
    wipeDirectory, sameMount, TryMount, forceUnmount, call, after; simpl.

Lemma source_of_default (d : dir) :
  source_of d = "" -> source_of (with_default_source d) = mount_path d.
Proof.
  intros E. unfold with_default_source. rewrite E. simpl.
  unfold source_of, go_index. simpl. now rewrite lookup_insert_eq.
Qed.

Lemma with_default_source_name (d : dir) :
  name (with_default_source d) = name d.
Proof.
  unfold with_default_source. now destruct (String.eqb (source_of d) "").
Qed.

(** [Create], case by case: the source is defaulted, then looked for, then
    compared with the LXD directory, then listed. *)
Lemma Create_run (st : State W) :
  let d := with_default_source (self st) in
  let src := source_of d in
  Create st =
    if negb (os_PathExists src (os st)) then
      (Some ("Source path '" +:+ src +:+ "' doesn't exist"),
       after st d (os st) [CallPathExists src])
    else if within_LXD_dir d then
      (Some ("Source path '" +:+ src +:+ "' is within the LXD directory"),
       after st d (os st) [CallPathExists src])
    else
      (match os_PathIsEmpty src (os st) with
       | (_, Some e) => Some e
       | (false, None) => Some ("Source path '" +:+ src +:+ "' isn't empty")
       | (true, None) => None
       end,
       after st d (os st) [CallPathExists src; CallPathIsEmpty src]).
Proof.
  destruct st as [[n cfg] w cs]. unfold Create, with_default_source, source_of.
  run.
  destruct (String.eqb (go_index cfg "source") "") eqn:E; simpl;
    unfold within_LXD_dir, mount_path, source_of; simpl;
    (destruct (os_PathExists _ w); simpl; [| reflexivity]);
    (destruct (strings_HasPrefix _ _ && negb _); simpl; [reflexivity |]);
    destruct (os_PathIsEmpty _ w) as [[|] [e|]]; simpl;
    rewrite <- app_assoc; reflexivity.
Qed.

Lemma Create_self (st : State W) :
  self (snd (Create st)) = with_default_source (self st).
Proof.
  rewrite Create_run.
  destruct (negb _); [reflexivity |].
  destruct (within_LXD_dir _); reflexivity.
Qed.

(** C1, amended: when the source [Create] checks exists, and, once cleaned,
    starts with the LXD directory without being the mount path of the pool,
    [Create] fails with the message
    [Source path '<source>' is within the LXD directory]; it has asked the
    host one thing, whether the source exists. *)
Theorem Create_within_LXD_directory (st : State W) :
  let d := with_default_source (self st) in
  os_PathExists (source_of d) (os st) = true ->
  strings_HasPrefix (filepath_Clean (source_of d)) VarPath = true ->
  filepath_Clean (source_of d) <> mount_path d ->
  Create st =
    (Some ("Source path '" +:+ source_of d
           +:+ "' is within the LXD directory"),
     after st d (os st) [CallPathExists (source_of d)]).
Proof.
  intros d Hex Hpre Hne. rewrite Create_run. fold d. rewrite Hex. simpl.
  unfold within_LXD_dir. rewrite Hpre.
  rewrite (proj2 (eqb_false_iff _ _) Hne). reflexivity.
Qed.

(** C3: [Create] checks existence, then containment, then emptiness, and
    stops at the first check that fails. A source that does not exist gives
    the not-found error whatever the other two checks would say, and a source
    within the LXD directory gives the containment error whatever the
    directory holds; in both cases the host was asked for existence only.
    Past these two, the host is asked whether the source is empty, and the
    answer decides. *)
Theorem Create_checks_in_order (st : State W) :
  let d := with_default_source (self st) in
  let src := source_of d in
  (os_PathExists src (os st) = false ->
   Create st =
     (Some ("Source path '" +:+ src +:+ "' doesn't exist"),
      after st d (os st) [CallPathExists src]))
  /\ (os_PathExists src (os st) = true -> within_LXD_dir d = true ->
      Create st =
        (Some ("Source path '" +:+ src +:+ "' is within the LXD directory"),
         after st d (os st) [CallPathExists src]))
  /\ (os_PathExists src (os st) = true -> within_LXD_dir d = false ->
      forall (isEmpty : bool) (err : error),
        os_PathIsEmpty src (os st) = (isEmpty, err) ->
        Create st =
          (match err with
           | Some e => Some e
           | None =>
               if isEmpty then None
               else Some ("Source path '" +:+ src +:+ "' isn't empty")
           end,
           after st d (os st) [CallPathExists src; CallPathIsEmpty src])).
Proof.
  intros d src. split; [| split].
  - intros Hex. rewrite Create_run. fold d src. now rewrite Hex.
  - intros Hex Hin. rewrite Create_run. fold d src. now rewrite Hex, Hin.
  - intros Hex Hin isEmpty err Hemp. rewrite Create_run. fold d src.
    rewrite Hex, Hin, Hemp. simpl. now destruct err, isEmpty.
Qed.

(** C8: [Create] writes no key of the configuration but [source], and
    writes [source] only when it was empty: with a source configured, the
    configuration after [Create] is the one before, whether the call failed
    or not. The name of the pool is never written. *)
Theorem Create_config_frame (st : State W) :
  name (self (snd (Create st))) = name (self st)
  /\ (forall k : string, k <> "source" ->
        config (self (snd (Create st))) !! k = config (self st) !! k)
  /\ (config (self (snd (Create st))) !! "source"
        <> config (self st) !! "source" ->
      source_of (self st) = "")
  /\ (source_of (self st) <> "" ->
      config (self (snd (Create st))) = config (self st)).
Proof.
  rewrite Create_self. unfold with_default_source.
  destruct (String.eqb_spec (source_of (self st)) "") as [E|E]; simpl.
  - repeat split; try congruence.
    intros k Hk. now apply lookup_insert_ne.
  - repeat split; congruence.
Qed.

(** [Mount], when the source is the mount path of the pool. *)
Lemma Mount_self_managed (st : State W) :
  source_of (self st) = mount_path (self st) ->
  Mount st = ((false, None), st).
Proof.
  unfold Mount, source_of, mount_path. intros E. run. rewrite E.
  now rewrite String.eqb_refl.
Qed.

(** [Unmount], when the source is the mount path of the pool. *)
Lemma Unmount_self_managed (st : State W) :
  source_of (self st) = mount_path (self st) ->
  Unmount st = ((false, None), st).
Proof.
  unfold Unmount, source_of, mount_path. intros E. run. rewrite E.
  now rewrite String.eqb_refl.
Qed.

(** [Mount], when the source is another path: the host compares the two
    mounts, and mounts when they differ. *)
Lemma Mount_run (st : State W) :
  let d := self st in
  let src := source_of d in
  let path := mount_path d in
  src <> path ->
  Mount st =
    if os_sameMount src path (os st) then
      ((false, None), after st d (os st) [CallSameMount src path])
    else
      match os_TryMount src path "none" MS_BIND "" (os st) with
      | (Some e, w1) =>
          ((false, Some e),
           after st d w1 [CallSameMount src path;
                          CallTryMount src path "none" MS_BIND ""])
      | (None, w1) =>
          ((true, None),
           after st d w1 [CallSameMount src path;
                          CallTryMount src path "none" MS_BIND ""])
      end.
Proof.
  intros d src path Hne. subst d src path.
  unfold Mount, source_of, mount_path in *. run.
  rewrite (proj2 (eqb_false_iff _ _) Hne).
  destruct (os_sameMount _ _ (os st)); simpl; [reflexivity |].
  destruct (os_TryMount _ _ "none" MS_BIND "" (os st)) as [[e|] w1];
    simpl; rewrite <- app_assoc; reflexivity.
Qed.

(** C5: for a pool whose source is its own mount path, [Mount] and [Unmount]
    return [(false, nil)] and leave the state as it was: the host is not
    called. *)
Theorem self_managed_noop (st : State W) :
  source_of (self st) = mount_path (self st) ->
  Mount st = ((false, None), st) /\ Unmount st = ((false, None), st).
Proof.
  intros E. split.
  - now apply Mount_self_managed.
  - now apply Unmount_self_managed.
Qed.

(** C6: called with no source configured, [Create] sets the source to the
    mount path of the pool and runs its checks on that path, the first being
    whether it exists; [Mount] on the driver it leaves returns
    [(false, nil)] and does nothing. *)
Theorem Create_defaults_source (st : State W) :
  source_of (self st) = "" ->
  source_of (self (snd (Create st))) = mount_path (self st)
  /\ (exists rest : list Call,
        calls (snd (Create st))
        = (calls st ++ CallPathExists (mount_path (self st)) :: rest)%list)
  /\ Mount (snd (Create st)) = ((false, None), snd (Create st)).
Proof.
  intros E.
  assert (Hsrc : source_of (self (snd (Create st))) = mount_path (self st)).
  { rewrite Create_self. now apply source_of_default. }
  split; [exact Hsrc | split].
  - rewrite Create_run. rewrite (source_of_default _ E).
    destruct (negb _); [now eexists |].
    destruct (within_LXD_dir _); now eexists.
  - apply Mount_self_managed. rewrite Hsrc. unfold mount_path.
    now rewrite Create_self, with_default_source_name.
Qed.

(** [Unmount], when the source is another path than the mount path of the
    pool: the host unmounts until nothing is left mounted. *)
Lemma Unmount_run (st : State W) :
  let d := self st in
  let path := mount_path d in
  source_of d <> path ->
  Unmount st =
    (fst (os_forceUnmount path (os st)),
     after st d (snd (os_forceUnmount path (os st))) [CallForceUnmount path]).
Proof.
  intros d path Hne. subst d path.
  unfold Unmount, source_of, mount_path in *. run.
  rewrite (proj2 (eqb_false_iff _ _) Hne).
  now destruct (os_forceUnmount _ (os st)).
Qed.


(** C2: [Delete] wipes the mount path of the pool first. If the wipe fails,
    its error is returned and that wipe is the one call made: nothing is
    unmounted. If the wipe succeeds, [Unmount] runs in the state the wipe
    left and its error, if any, is what [Delete] returns: for a pool whose
    source is its mount path nothing more is called; for any other pool the
    host unmounts the mount path, after the wipe. *)
Theorem Delete_wipe_then_unmount (Operation : Type) (op : option Operation)
    (st : State W) :
  let d := self st in
  let path := mount_path d in
  forall (err : error) (w1 : W),
    os_wipeDirectory path (os st) = (err, w1) ->
    let st1 := after st d w1 [CallWipeDirectory path] in
    match err with
    | Some e => Delete op st = (Some e, st1)
    | None =>
        Delete op st = (snd (fst (Unmount st1)), snd (Unmount st1))
        /\ (source_of d = path -> Delete op st = (None, st1))
        /\ (source_of d <> path ->
            forall (r : bool * error) (w2 : W),
              os_forceUnmount path w1 = (r, w2) ->
              Delete op st =
                (snd r,
                 after st d w2 [CallWipeDirectory path;
                                CallForceUnmount path]))
    end.
Proof.
  intros d path err w1 Hwipe st1.
  assert (Hrun : Delete op st =
                 match err with
                 | Some e => (Some e, st1)
                 | None => (snd (fst (Unmount st1)), snd (Unmount st1))
                 end).
  { unfold Delete. run. fold d. fold (mount_path d). fold path.
    rewrite Hwipe. destruct err as [e|]; [reflexivity |].
    fold (after st d w1 [CallWipeDirectory path]). fold st1.
    destruct (Unmount st1) as [[b [e|]] st2]; reflexivity. }
  destruct err as [e|]; [exact Hrun |].
  split; [exact Hrun | split].
  - intros Hself. rewrite Hrun.
    assert (E : source_of (self st1) = mount_path (self st1)) by exact Hself.
    now rewrite (Unmount_self_managed st1 E).
  - intros Hne r w2 Hun. rewrite Hrun.
    assert (E : source_of (self st1) <> mount_path (self st1)) by exact Hne.
    rewrite (Unmount_run st1 E). simpl. fold path. rewrite Hun. simpl.
    unfold after. simpl. now rewrite <- app_assoc.
Qed.

(** C7: [Info] returns the same record in every state of the driver and of
    the host, and leaves the state as it is: name [dir], version [1], the
    four volume types, quota resize and snapshot freeze while running, and
    neither optimized images, nor preserved inodes, nor remote, nor block
    backed. *)
Theorem dir_Info_pure (st : State W) :
  snd (dir_Info st) = st
  /\ fst (dir_Info st)
     = {| Name := "dir";
          Version := "1";
          OptimizedImages := false;
          PreservesInodes := false;
          Remote := false;
          VolumeTypes := [VolumeTypeCustom; VolumeTypeImage;
                          VolumeTypeContainer; VolumeTypeVM];
          BlockBacking := false;
          RunningQuotaResize := true;
          RunningSnapshotFreeze := true |}
  /\ forall v : VolumeType, In v (VolumeTypes (fst (dir_Info st))).
Proof.
  split; [reflexivity | split; [reflexivity |]].
  intros v. simpl. destruct v; tauto.
Qed.

End DriverFacts.

(** ** The host of the specification *)

Section SpecHostFacts.

Import SpecHost.



End SpecHostFacts.

(** ** Runs of the driver on the host of the specification *)

Section Runs.

Import Drivers.

#[local] Existing Instance SpecHost.host.

(** Closes a goal with a proof whose statement computes to it. *)
Ltac by_computing t :=
  match goal with |- ?G => exact (t <: G) end.

(** C1 as stated fails. The source of [pool_nested] exists and lies below the
    LXD directory, at the mount path of another pool: [Create] fails, and its
    message ends in [is within the LXD directory], not in
    [is within the managed storage directory]. The source of
    [pool_nested_missing] lies below the LXD directory too and does not
    exist: the error of [Create] is the one of the existence check. *)
Lemma Create_containment_message :
  (within_LXD_dir (self Examples.pool_nested) = true
   /\ fst (Create Examples.pool_nested)
      = Some "Source path '/var/lib/lxd/storage-pools/other' is within the LXD directory"
   /\ fst (Create Examples.pool_nested)
      <> Some "Source path '/var/lib/lxd/storage-pools/other' is within the managed storage directory")
  /\ (within_LXD_dir (self Examples.pool_nested_missing) = true
      /\ fst (Create Examples.pool_nested_missing)
         = Some "Source path '/var/lib/lxd/storage-pools/missing' doesn't exist").
Proof.
  assert (E : fst (Create Examples.pool_nested)
              = Some "Source path '/var/lib/lxd/storage-pools/other' is within the LXD directory")
    by (vm_compute; reflexivity).
  split; [split; [| split] | split].
  - vm_compute; reflexivity.
  - exact E.
  - rewrite E. intros H. inversion H.
  - vm_compute; reflexivity.
  - vm_compute; reflexivity.
Qed.

Lemma Create_within_LXD_directory_witness :
  Create Examples.pool_nested
  = (Some "Source path '/var/lib/lxd/storage-pools/other' is within the LXD directory",
     after Examples.pool_nested (self Examples.pool_nested) Examples.world0
       [CallPathExists "/var/lib/lxd/storage-pools/other"]).
Proof.
  apply (Create_within_LXD_directory Examples.pool_nested).
  - vm_compute; reflexivity.
  - vm_compute; reflexivity.
  - vm_compute. intros H. inversion H.
Defined.

(** Scenario C of the specification, through C3: the source of [pool_bad]
    exists, lies outside the LXD directory and holds [a.txt]. *)
Lemma Create_checks_in_order_witness :
  Create Examples.pool_bad
  = (Some "Source path '/mnt/full' isn't empty",
     after Examples.pool_bad (self Examples.pool_bad) Examples.world0
       [CallPathExists "/mnt/full"; CallPathIsEmpty "/mnt/full"]).
Proof.
  refine (proj2 (proj2 (Create_checks_in_order Examples.pool_bad))
            _ _ false None _);
    vm_compute; reflexivity.
Defined.

(** The configuration of [pool_bad] after the [Create] that failed. *)
Lemma Create_config_frame_witness :
  config (self (snd (Create Examples.pool_bad)))
  = {[ "source" := "/mnt/full" ]}.
Proof.
  apply (proj2 (proj2 (proj2 (Create_config_frame Examples.pool_bad)))).
  vm_compute. intros H. inversion H.
Defined.

Lemma self_managed_noop_witness :
  Mount Examples.pool_default_self
  = ((false, None), Examples.pool_default_self)
  /\ Unmount Examples.pool_default_self
     = ((false, None), Examples.pool_default_self).
Proof.
  apply (self_managed_noop Examples.pool_default_self).
  vm_compute; reflexivity.
Defined.

(** Scenario A of the specification, through C6. *)
Lemma Create_defaults_source_witness :
  source_of (self (snd (Create Examples.pool_default)))
  = "/var/lib/lxd/storage-pools/default"
  /\ (exists rest : list Call,
        calls (snd (Create Examples.pool_default))
        = CallPathExists "/var/lib/lxd/storage-pools/default" :: rest)
  /\ Mount (snd (Create Examples.pool_default))
     = ((false, None), snd (Create Examples.pool_default)).
Proof.
  assert (H : source_of (self Examples.pool_default) = "")
    by (vm_compute; reflexivity).
  by_computing (Create_defaults_source Examples.pool_default H).
Defined.



(** The mount table after the first [Mount] of [pool_data]. *)
Lemma pool_data_mounted_table :
  SpecHost.mounted (os Examples.pool_data_mounted)
  = [("/var/lib/lxd/storage-pools/data", "/mnt/data")].
Proof. vm_compute; reflexivity. Qed.

(** C2 on a wipe that fails: the pool is mounted and the host protects what
    is mounted; [Delete] returns the error of the wipe, has called nothing
    else, and the mount is still there. *)
Lemma Delete_wipe_then_unmount_witness :
  Delete (None : option unit) Examples.pool_protected
  = (Some "Failed to remove '/var/lib/lxd/storage-pools/data'",
     after Examples.pool_protected (self Examples.pool_protected)
       Examples.world_protected
       [CallWipeDirectory "/var/lib/lxd/storage-pools/data"]).
Proof.
  assert (Hw : os_wipeDirectory (mount_path (self Examples.pool_protected))
                 (os Examples.pool_protected)
               = (Some "Failed to remove '/var/lib/lxd/storage-pools/data'",
                  Examples.world_protected))
    by (vm_compute; reflexivity).
  by_computing
    (Delete_wipe_then_unmount unit None Examples.pool_protected _ _ Hw).
Defined.

(** The round trip of the specification on [pool_data]: after the [Mount]
    that returned [true] the mount path is a mount point, and [Unmount]
    returns [(true, nil)] and leaves it none. *)
Lemma Mount_Unmount_round_trip :
  SpecHost.IsMountPoint "/var/lib/lxd/storage-pools/data"
    (os Examples.pool_data_mounted) = true
  /\ fst (Unmount Examples.pool_data_mounted) = (true, None)
  /\ SpecHost.IsMountPoint "/var/lib/lxd/storage-pools/data"
       (os (snd (Unmount Examples.pool_data_mounted))) = false.
Proof. repeat split; vm_compute; reflexivity. Qed.

(** [Delete] of the mounted [pool_data]: the wipe, then the unmount, and no
    error. *)
Lemma Delete_mounted_pool :
  fst (Delete (None : option unit) Examples.pool_data_mounted) = None
  /\ calls (snd (Delete (None : option unit) Examples.pool_data_mounted))
     = (calls Examples.pool_data_mounted
        ++ [CallWipeDirectory "/var/lib/lxd/storage-pools/data";
            CallForceUnmount "/var/lib/lxd/storage-pools/data"])%list
  /\ SpecHost.mounted
       (os (snd (Delete (None : option unit) Examples.pool_data_mounted)))
     = [].
Proof. repeat split; vm_compute; reflexivity. Qed.

End Runs.

(** ** Keys of the registry, split again *)

Section KeyFacts.

Import Device.

Lemma count_byte_app (sep : ascii) (a b : string) :
  count_byte sep (a +:+ b) = count_byte sep a + count_byte sep b.
Proof.
  induction a as [|c a IH]; [reflexivity |].
  rewrite append_cons. simpl. rewrite IH. lia.
Qed.

Lemma split_cuts_0 (sep : ascii) (s : string) : split_cuts sep 0 s = [s].
Proof. now destruct s. Qed.

Lemma split_cuts_nonempty (sep : ascii) (k : nat) (s : string) :
  split_cuts sep k s <> [].
Proof.
  revert k. induction s as [|c s IH]; intros [|k]; simpl; try discriminate.
  destruct (Ascii.eqb c sep); [discriminate |].
  destruct (split_cuts sep (S k) s); discriminate.
Qed.

(** [split_cuts] makes one part more than it cuts, and cuts at every
    separator up to its bound. *)
Lemma split_cuts_length (sep : ascii) (k : nat) (s : string) :
  length (split_cuts sep k s) = S (Nat.min k (count_byte sep s)).
Proof.
  revert k. induction s as [|c s IH]; intros [|k]; simpl; try reflexivity.
  destruct (Ascii.eqb c sep); simpl.
  - now rewrite IH.
  - specialize (IH (S k)).
    destruct (split_cuts sep (S k) s) as [|x xs] eqn:E.
    + now apply split_cuts_nonempty in E.
    + simpl in *. exact IH.
Qed.

Lemma strings_Join_cons (a b : string) (l : list string) (sep : string) :
  strings_Join (a :: b :: l) sep = a +:+ sep +:+ strings_Join (b :: l) sep.
Proof. reflexivity. Qed.

(** The parts, joined by the separator, are the string that was split. *)
Lemma split_cuts_join (sep : ascii) (k : nat) (s : string) :
  strings_Join (split_cuts sep k s) (String sep "") = s.
Proof.
  revert k. induction s as [|c s IH]; intros [|k]; simpl; try reflexivity.
  destruct (Ascii.eqb_spec c sep) as [->|Hc].
  - specialize (IH k).
    destruct (split_cuts sep k s) as [|x xs] eqn:E.
    + now apply split_cuts_nonempty in E.
    + rewrite strings_Join_cons, append_empty_l, append_cons, append_empty_l.
      now rewrite IH.
  - specialize (IH (S k)).
    destruct (split_cuts sep (S k) s) as [|x xs] eqn:E.
    + now apply split_cuts_nonempty in E.
    + destruct xs as [|y ys]; [simpl in *; now rewrite IH |].
      rewrite strings_Join_cons in *. rewrite append_cons. now rewrite IH.
Qed.

(** A part without separator, followed by one, is cut off as it is. *)
Lemma split_cuts_nul_free (k : nat) (a b : string) :
  nul_free a = true ->
  split_cuts NUL (S k) (a +:+ String NUL b) = a :: split_cuts NUL k b.
Proof.
  induction a as [|c a IH]; intros Ha.
  - rewrite append_empty_l. reflexivity.
  - simpl in Ha. apply andb_prop in Ha as [Hc Ha].
    rewrite append_cons. simpl.
    apply negb_true_iff in Hc. rewrite Hc.
    now rewrite (IH Ha).
Qed.

Lemma strings_SplitN_3 (sep : ascii) (s : string) :
  strings_SplitN s sep 3 = split_cuts sep 2 s.
Proof. reflexivity. Qed.

Lemma usbKey_nuls (i : InstanceIdentifier) (d : string) :
  2 <= count_byte NUL (usbKey i d).
Proof.
  rewrite usbKey_unfold, count_byte_app.
  change (count_byte NUL (String NUL ?s)) with (S (count_byte NUL s)).
  rewrite count_byte_app.
  change (count_byte NUL (String NUL ?s)) with (S (count_byte NUL s)).
  lia.
Qed.

(** The split of [USBRunHandlers] gives back what [usbKey] put together:
    project name, instance name and device name, for project and instance
    names without a [\000]. *)
Theorem usbKey_split (i : InstanceIdentifier) (d : string) :
  nul_free (Project i) = true -> nul_free (Name i) = true ->
  strings_SplitN (usbKey i d) NUL 3 = [Project i; Name i; d].
Proof.
  intros Hp Hn. rewrite strings_SplitN_3, usbKey_unfold.
  rewrite (split_cuts_nul_free 1 _ _ Hp).
  rewrite (split_cuts_nul_free 0 _ _ Hn).
  now rewrite split_cuts_0.
Qed.

Lemma usbKey_split_witness :
  strings_SplitN (usbKey Examples.inst_c1 "usb0") NUL 3
  = ["default"; "c1"; "usb0"].
Proof.
  apply (usbKey_split Examples.inst_c1 "usb0"); reflexivity.
Defined.

(** Whatever the three names hold, the key made of them splits in exactly
    three parts, which joined by [\000] are the key: the three indexings of
    [USBRunHandlers] are within bounds. *)
Theorem usbKey_three_parts (i : InstanceIdentifier) (d : string) :
  exists a b c : string,
    strings_SplitN (usbKey i d) NUL 3 = [a; b; c]
    /\ a +:+ nul +:+ b +:+ nul +:+ c = usbKey i d.
Proof.
  rewrite strings_SplitN_3.
  pose proof (split_cuts_length NUL 2 (usbKey i d)) as Hlen.
  pose proof (split_cuts_join NUL 2 (usbKey i d)) as Hjoin.
  pose proof (usbKey_nuls i d) as Hn.
  rewrite Nat.min_l in Hlen by exact Hn.
  destruct (split_cuts NUL 2 (usbKey i d)) as [|a [|b [|c [|e l]]]];
    try discriminate.
  exists a, b, c. split; [reflexivity | exact Hjoin].
Qed.

End KeyFacts.

(** ** Running the handlers *)

Section DispatchFacts.

Import Device.

Context {RunConfig DaemonState Instance World : Type}.

Variable load :
  DaemonState -> string -> string -> World -> (option Instance * error) * World.

Variable handle : Instance -> RunConfig -> World -> error * World.

(** One turn of the loop removes the entry of a nil hook and writes to no
    other entry. *)
Lemma run_hook_handlers (state : DaemonState) (event : USBDevice)
    (key : string) (hook : Handler RunConfig)
    (r r' : Dispatch RunConfig World) :
  run_hook load handle state event key hook r = Some r' ->
  handlers r' = match hook with
                | None => delete key (handlers r)
                | Some _ => handlers r
                end.
Proof.
  unfold run_hook.
  destruct (strings_SplitN key NUL 3) as [|p [|n [|d l]]]; try discriminate.
  destruct hook as [f|]; [| now intros [= <-]].
  destruct (f event) as [[rc|] [e|]]; try (now intros [= <-]).
  destruct (load state p n (world r)) as [[[inst|] [e|]] w];
    try (now intros [= <-]).
  destruct (handle inst rc w) as [[e|] w']; now intros [= <-].
Qed.

Lemma pruned_idem (o : option (Handler RunConfig)) :
  pruned (pruned o) = pruned o.
Proof. now destruct o as [[f|]|]. Qed.

(** The registry after a run, key by key: the keys the loop came to are
    pruned, the others are as they were. *)
Lemma USBRunHandlers_lookup (state : DaemonState) (event : USBDevice)
    (order : list string) (r r' : Dispatch RunConfig World) (k : string) :
  USBRunHandlers load handle state event order r = Some r' ->
  (k ∈ order -> handlers r' !! k = pruned (handlers r !! k))
  /\ (k ∉ order -> handlers r' !! k = handlers r !! k).
Proof.
  revert r. induction order as [|key rest IH]; intros r Hrun; simpl in Hrun.
  - injection Hrun as <-. split; [intros H; inversion H | reflexivity].
  - destruct (handlers r !! key) as [hook|] eqn:Hkey.
    + destruct (run_hook load handle state event key hook r) as [r1|] eqn:Hstep;
        [| discriminate].
      apply run_hook_handlers in Hstep.
      destruct (IH r1 Hrun) as [Hin Hout].
      assert (Hk1 : handlers r1 !! k
                    = if decide (k = key) then pruned (handlers r !! k)
                      else handlers r !! k).
      { rewrite Hstep. destruct (decide (k = key)) as [->|Hne].
        - rewrite Hkey. destruct hook as [f|]; simpl.
          + exact Hkey.
          + apply lookup_delete_eq.
        - destruct hook as [f|]; [reflexivity |].
          now apply lookup_delete_ne. }
      split.
      * intros Hk. destruct (decide (k ∈ rest)) as [Hr|Hr].
        -- rewrite (Hin Hr), Hk1.
           destruct (decide (k = key)); [apply pruned_idem | reflexivity].
        -- rewrite (Hout Hr), Hk1.
           apply elem_of_cons in Hk as [->|Hk]; [| contradiction].
           now rewrite decide_True.
      * intros Hk. apply not_elem_of_cons in Hk as [Hne Hr].
        rewrite (Hout Hr), Hk1. now rewrite decide_False.
    + destruct (IH r Hrun) as [Hin Hout]. split.
      * intros Hk. destruct (decide (k ∈ rest)) as [Hr|Hr]; [now apply Hin |].
        apply elem_of_cons in Hk as [->|Hk]; [| contradiction].
        rewrite (Hout Hr), Hkey. reflexivity.
      * intros Hk. apply not_elem_of_cons in Hk as [_ Hr]. now apply Hout.
Qed.

(** After a run over all its keys, in whatever order, the registry holds no
    nil hook, and every other handler is registered as it was. *)
Theorem USBRunHandlers_prunes (state : DaemonState) (event : USBDevice)
    (order : list string) (r r' : Dispatch RunConfig World) :
  range_order (handlers r) order ->
  USBRunHandlers load handle state event order r = Some r' ->
  forall k : string, handlers r' !! k = pruned (handlers r !! k).
Proof.
  intros [_ Hcover] Hrun k.
  destruct (USBRunHandlers_lookup state event order r r' k Hrun) as [Hin Hout].
  destruct (decide (k ∈ order)) as [Hk|Hk]; [now apply Hin |].
  rewrite (Hout Hk).
  destruct (handlers r !! k) as [h|] eqn:E; [| reflexivity].
  exfalso. apply Hk, Hcover. now exists h.
Qed.


(** The entries of a registry after a turn of the loop were there before. *)
Lemma run_hook_lookup (state : DaemonState) (event : USBDevice)
    (key : string) (hook : Handler RunConfig)
    (r r' : Dispatch RunConfig World) (k : string) (h : Handler RunConfig) :
  run_hook load handle state event key hook r = Some r' ->
  handlers r' !! k = Some h -> handlers r !! k = Some h.
Proof.
  intros Hstep. rewrite (run_hook_handlers _ _ _ _ _ _ Hstep).
  destruct hook as [f|]; [trivial |].
  intros H. apply lookup_delete_Some in H. tauto.
Qed.

Lemma keyed_empty : keyed (∅ : gmap string (Handler RunConfig)).
Proof. intros k [h Hk]. rewrite lookup_empty in Hk. discriminate. Qed.

Lemma keyed_register (m : gmap string (Handler RunConfig))
    (i : InstanceIdentifier) (d : string) (h : Handler RunConfig) :
  keyed m -> keyed (USBRegisterHandler i d h m).
Proof.
  intros Hm k [h' Hk]. unfold USBRegisterHandler in Hk.
  destruct (decide (usbKey i d = k)) as [<-|Hne].
  - now exists i, d.
  - rewrite lookup_insert_ne in Hk by exact Hne. apply Hm. now exists h'.
Qed.

Lemma keyed_unregister (m : gmap string (Handler RunConfig))
    (i : InstanceIdentifier) (d : string) :
  keyed m -> keyed (USBUnregisterHandler i d m).
Proof.
  intros Hm k [h' Hk]. unfold USBUnregisterHandler in Hk.
  apply lookup_delete_Some in Hk as [_ Hk]. apply Hm. now exists h'.
Qed.

(** An invariant of the registry: registering and unregistering keep every
    key one that [usbKey] made, from the empty registry on. *)
Theorem keyed_registry :
  keyed (∅ : gmap string (Handler RunConfig))
  /\ forall (m : gmap string (Handler RunConfig)) (i : InstanceIdentifier)
       (d : string) (h : Handler RunConfig),
       keyed m ->
       keyed (USBRegisterHandler i d h m) /\ keyed (USBUnregisterHandler i d m).
Proof.
  split; [exact keyed_empty |].
  intros m i d h Hm. split.
  - now apply keyed_register.
  - now apply keyed_unregister.
Qed.


(** When every hook of the registry answers the event with neither a run
    configuration nor an error, a run loads no instance, calls no instance
    handler and logs nothing: the world and the log are as they were. *)
Theorem USBRunHandlers_quiet (state : DaemonState) (event : USBDevice)
    (order : list string) (r r' : Dispatch RunConfig World) :
  (forall (k : string) (f : USBDevice -> option RunConfig * error),
      handlers r !! k = Some (Some f) -> f event = (None, None)) ->
  USBRunHandlers load handle state event order r = Some r' ->
  world r' = world r /\ logged r' = logged r.
Proof.
  revert r. induction order as [|key rest IH]; intros r Hquiet Hrun;
    simpl in Hrun.
  - now injection Hrun as <-.
  - destruct (handlers r !! key) as [hook|] eqn:Hkey; [| now apply IH].
    destruct (run_hook load handle state event key hook r) as [r1|] eqn:Hstep;
      [| discriminate].
    assert (Hsame : world r1 = world r /\ logged r1 = logged r).
    { unfold run_hook in Hstep.
      destruct (strings_SplitN key NUL 3) as [|p [|n [|d l]]];
        try discriminate.
      destruct hook as [f|]; [| now injection Hstep as <-].
      rewrite (Hquiet key f Hkey) in Hstep. now injection Hstep as <-. }
    destruct Hsame as [Hw Hl]. rewrite <- Hw, <- Hl. apply IH; [| exact Hrun].
    intros k f Hk. apply (Hquiet k).
    exact (run_hook_lookup _ _ _ _ _ _ _ _ Hstep Hk).
Qed.



End DispatchFacts.

(** ** Loading a USB device *)

Section LoadFacts.

Import Device.

Local Open Scope Z_scope.

Lemma is_digit_range (c : ascii) :
  is_digit c = true -> 0 <= byte_val c - 48 <= 9.
Proof.
  unfold is_digit. intros H. apply andb_prop in H as [H1 H2].
  apply Z.leb_le in H1, H2. lia.
Qed.

(** Digits only add to the number read so far. *)
Lemma decimal_value_ge (s : string) (n : Z) :
  all_digits s = true -> 0 <= n -> n <= decimal_value s n.
Proof.
  revert n. induction s as [|c s IH]; intros n Hs Hn; simpl in *; [lia |].
  apply andb_prop in Hs as [Hc Hs]. apply is_digit_range in Hc.
  specialize (IH (n * 10 + (byte_val c - 48)) Hs). lia.
Qed.

(** The loop of [ParseUint] ends without error exactly on digits that write
    a number up to [maxVal], and returns that number. *)
Lemma parse_uint_loop_ok (maxVal : Z) (s : string) (n v : Z) :
  0 <= n <= maxVal -> maxVal <= maxUint64 ->
  parse_uint_loop maxVal s n = (v, None)
  <-> all_digits s = true /\ decimal_value s n = v /\ v <= maxVal.
Proof.
  intros Hn Hmax. revert n Hn. unfold maxUint64 in Hmax.
  induction s as [|c s IH]; intros n Hn; simpl.
  - split; [intros [= <-]; repeat split; lia | intros (_ & <- & _); reflexivity].
  - fold (is_digit c). destruct (is_digit c) eqn:Hc; simpl;
      [| split; [discriminate | intros [? _]; discriminate]].
    pose proof (is_digit_range c Hc) as Hd.
    change (maxUint64 / 10 + 1) with 1844674407370955162.
    change (2 ^ 64) with 18446744073709551616 in *.
    destruct (Z.geb_spec n 1844674407370955162) as [Hcut|Hcut].
    + split; [discriminate |]. intros (Hs & Hv & Hle).
      pose proof (decimal_value_ge s _ Hs
                    (ltac:(lia) : 0 <= n * 10 + (byte_val c - 48))). lia.
    + rewrite (Z.mod_small (n * 10)) by lia.
      destruct (Z_lt_ge_dec (n * 10 + (byte_val c - 48)) 18446744073709551616)
        as [Hfit|Hover].
      * rewrite (Z.mod_small (n * 10 + (byte_val c - 48))) by lia.
        destruct (Z.ltb_spec (n * 10 + (byte_val c - 48)) (n * 10)); [lia |].
        simpl.
        destruct (Z.gtb_spec (n * 10 + (byte_val c - 48)) maxVal) as [Hgt|Hgt].
        -- split; [discriminate |]. intros (Hs & Hv & Hle).
           pose proof (decimal_value_ge s _ Hs
                         (ltac:(lia) : 0 <= n * 10 + (byte_val c - 48))). lia.
        -- apply IH. lia.
      * split.
        -- intros H. exfalso.
           assert (E : (n * 10 + (byte_val c - 48)) mod 18446744073709551616
                       = n * 10 + (byte_val c - 48) - 18446744073709551616).
           { symmetry. apply Z.mod_unique_pos with (q := 1); lia. }
           rewrite E in H.
           destruct (Z.ltb_spec (n * 10 + (byte_val c - 48)
                                 - 18446744073709551616) (n * 10));
             [discriminate | lia].
        -- intros (Hs & Hv & Hle).
           pose proof (decimal_value_ge s _ Hs
                         (ltac:(lia) : 0 <= n * 10 + (byte_val c - 48))). lia.
Qed.

(** [ParseUint(s, 10, 32)] succeeds exactly on a string that is not empty,
    holds decimal digits only and writes a number below [2^32]; its result
    is that number. *)
Lemma strconv_ParseUint10_32_ok (s : string) (v : Z) :
  strconv_ParseUint10 s 32 = (v, None)
  <-> s <> "" /\ all_digits s = true /\ decimal_value s 0 = v /\ v < 2 ^ 32.
Proof.
  unfold strconv_ParseUint10.
  destruct (String.eqb_spec s "") as [->|Hs].
  - split; [discriminate | intros [H _]; contradiction].
  - pose proof (parse_uint_loop_ok (2 ^ 32 - 1) s 0 v
                  (ltac:(lia)) (ltac:(unfold maxUint64; lia))) as H.
    destruct (parse_uint_loop (2 ^ 32 - 1) s 0) as [n [e|]].
    + split; [discriminate |]. intros (_ & Hd & Hv & Hlt).
      assert (Hok : (n, Some e) = (v, None))
        by (apply H; split; [exact Hd | split; [exact Hv | lia]]).
      discriminate.
    + split.
      * intros [= <-]. destruct (proj1 (H) eq_refl) as (Hd & Hv & Hle).
        repeat split; trivial; lia.
      * intros (_ & Hd & Hv & Hlt). f_equal.
        assert (Hok : (n, @None NumErr) = (v, None))
          by (apply H; split; [exact Hd | split; [exact Hv | lia]]).
        now injection Hok.
Qed.



(** Takes a run of [USBDeviceLoad] apart, parse by parse. *)
Ltac load_cases H :=
  unfold USBDeviceLoad in H;
  let mj := fresh "mj" in let Emj := fresh "Emj" in
  let mn := fresh "mn" in let Emn := fresh "Emn" in
  destruct (strconv_ParseUint10 _ 32) as [mj [?e|]] eqn:Emj in H;
  [ | destruct (strconv_ParseUint10 _ 32) as [mn [?e|]] eqn:Emn in H;
      [ | destruct (String.eqb _ "") eqn:?Hdev in H;
          [ let b := fresh "b" in let Eb := fresh "Eb" in
            let d := fresh "d" in let Ed := fresh "Ed" in
            destruct (strconv_Atoi _) as [b [?e|]] eqn:Eb in H;
            [ | destruct (strconv_Atoi _) as [d [?e|]] eqn:Ed in H ]
          | destruct (negb (filepath_IsAbs _)) eqn:?Habs in H ] ] ].

(** A device that loaded has the major and minor numbers its two strings
    write, which hold decimal digits only, at least one, and write numbers
    below [2^32], so that the conversion to [uint32] loses nothing; action,
    vendor, product and the parts of the event are the ones given. *)
Theorem USBDeviceLoad_numbers (action vendor product major minor busnum
    devnum devname : string) (ueventParts : list string) (ueventLen : Z)
    (dev : USBDevice) :
  USBDeviceLoad action vendor product major minor busnum devnum devname
    ueventParts ueventLen = (dev, None) ->
  (major <> ""%string /\ all_digits major = true
   /\ Major dev = decimal_value major 0 /\ 0 <= Major dev < 2 ^ 32)
  /\ (minor <> ""%string /\ all_digits minor = true
      /\ Minor dev = decimal_value minor 0 /\ 0 <= Minor dev < 2 ^ 32)
  /\ Action dev = action /\ Vendor dev = vendor /\ Product dev = product
  /\ UeventParts dev = ueventParts /\ UeventLen dev = ueventLen.
Proof.
  intros H.
  assert (Hnum : forall (s : string) (v : Z),
             strconv_ParseUint10 s 32 = (v, None) ->
             s <> ""%string /\ all_digits s = true
             /\ v mod 2 ^ 32 = decimal_value s 0
             /\ 0 <= v mod 2 ^ 32 < 2 ^ 32).
  { intros s v E. apply strconv_ParseUint10_32_ok in E as (Hs & Hd & Hv & Hlt).
    pose proof (decimal_value_ge s 0 Hd (Z.le_refl 0)) as Hge.
    rewrite Z.mod_small by lia. repeat split; trivial; lia. }
  load_cases H; try discriminate; injection H as <-; simpl;
    (split; [now apply Hnum | split; [now apply Hnum | repeat split]]).
Qed.

(** The path of a device that loaded is absolute. *)
Theorem USBDeviceLoad_path_absolute (action vendor product major minor busnum
    devnum devname : string) (ueventParts : list string) (ueventLen : Z)
    (dev : USBDevice) :
  USBDeviceLoad action vendor product major minor busnum devnum devname
    ueventParts ueventLen = (dev, None) ->
  filepath_IsAbs (Path dev) = true.
Proof.
  intros H. load_cases H; try discriminate; injection H as <-; simpl.
  - reflexivity.
  - reflexivity.
  - now apply negb_false_iff in Habs.
Qed.

(** With a device name, bus and device numbers are not read: the result is
    the same whatever they hold, and the path of a device that loaded is the
    name if it is absolute and the name below [/dev] otherwise. *)
Theorem USBDeviceLoad_devname (action vendor product major minor busnum
    devnum devname : string) (ueventParts : list string) (ueventLen : Z) :
  devname <> ""%string ->
  (forall busnum' devnum' : string,
      USBDeviceLoad action vendor product major minor busnum devnum devname
        ueventParts ueventLen
      = USBDeviceLoad action vendor product major minor busnum' devnum'
          devname ueventParts ueventLen)
  /\ (forall dev : USBDevice,
        USBDeviceLoad action vendor product major minor busnum devnum devname
          ueventParts ueventLen = (dev, None) ->
        Path dev = if filepath_IsAbs devname then devname
                   else ("/dev/" +:+ devname)%string).
Proof.
  intros Hname. apply eqb_false_iff in Hname. split.
  - intros busnum' devnum'. unfold USBDeviceLoad. now rewrite Hname.
  - intros dev H. unfold USBDeviceLoad in H. rewrite Hname in H.
    destruct (strconv_ParseUint10 major 32) as [mj [e|]]; [discriminate |].
    destruct (strconv_ParseUint10 minor 32) as [mn [e|]]; [discriminate |].
    destruct (filepath_IsAbs devname); injection H as <-; simpl.
    + reflexivity.
    + now rewrite append_empty_r.
Qed.


(** A device that loaded is taken by exactly the configurations that select
    the vendor and the product it was loaded with: those whose [vendorid] is
    empty or that vendor, and whose [productid] is empty or that product. *)
Theorem USBDeviceLoad_then_IsOurDevice (action vendor product major minor
    busnum devnum devname : string) (ueventParts : list string)
    (ueventLen : Z) (dev : USBDevice) (config : gmap string string) :
  USBDeviceLoad action vendor product major minor busnum devnum devname
    ueventParts ueventLen = (dev, None) ->
  USBIsOurDevice config dev
  = (String.eqb (go_index config "vendorid") ""
     || String.eqb (go_index config "vendorid") vendor)
    && (String.eqb (go_index config "productid") ""
        || String.eqb (go_index config "productid") product).
Proof.
  intros H.
  assert (Hv : Vendor dev = vendor /\ Product dev = product)
    by (load_cases H; try discriminate; injection H as <-; now split).
  unfold USBIsOurDevice. destruct Hv as [-> ->].
  destruct (String.eqb (go_index config "vendorid") "");
    destruct (String.eqb (go_index config "vendorid") vendor);
    destruct (String.eqb (go_index config "productid") "");
    destruct (String.eqb (go_index config "productid") product);
    reflexivity.
Qed.

(** *** The path made of bus and device number *)

Lemma all_digits_string_of_uint (u : Decimal.uint) :
  all_digits (NilEmpty.string_of_uint u) = true.
Proof. induction u; simpl; trivial. Qed.

Lemma all_digits_app (a b : string) :
  all_digits (a +:+ b) = all_digits a && all_digits b.
Proof.
  induction a as [|c a IH]; [reflexivity |].
  rewrite append_cons. simpl. rewrite IH. now rewrite andb_assoc.
Qed.

Lemma all_digits_zeros (k : nat) : all_digits (zeros k) = true.
Proof. induction k; simpl; trivial. Qed.

(** The digits of a positive accumulator followed by those of [u]. *)
Lemma decimal_value_of_uint_acc (u : Decimal.uint) (acc : positive) :
  decimal_value (NilEmpty.string_of_uint u) (Z.pos acc)
  = Z.pos (Pos.of_uint_acc u acc).
Proof.
  revert acc. induction u; intros acc; simpl; trivial;
    match goal with
    | |- decimal_value _ ?n = Z.pos (Pos.of_uint_acc _ ?p) =>
        replace n with (Z.pos p) by (unfold byte_val; simpl; lia)
    end; apply IHu.
Qed.

Lemma decimal_value_of_uint (u : Decimal.uint) :
  decimal_value (NilEmpty.string_of_uint u) 0 = Z.of_N (N.of_uint u).
Proof.
  induction u; simpl; trivial;
    try (match goal with
         | |- decimal_value _ ?n = Z.pos (Pos.of_uint_acc _ ?p) =>
             replace n with (Z.pos p) by (unfold byte_val; simpl; lia)
         end; apply decimal_value_of_uint_acc).
Qed.

Lemma decimal_value_zeros (k : nat) (s : string) :
  decimal_value (zeros k +:+ s) 0 = decimal_value s 0.
Proof.
  induction k as [|k IH]; [reflexivity |]. simpl zeros.
  rewrite append_cons. simpl. exact IH.
Qed.

(** The padded digits of a number that is not negative hold digits only and
    write that number. *)
Lemma pad_zeros_decimal (width : nat) (n : Z) :
  0 <= n ->
  all_digits (pad_zeros width (decimal n)) = true
  /\ decimal_value (pad_zeros width (decimal n)) 0 = n.
Proof.
  intros Hn. unfold pad_zeros, decimal. split.
  - rewrite all_digits_app, all_digits_zeros, all_digits_string_of_uint.
    reflexivity.
  - rewrite decimal_value_zeros, decimal_value_of_uint, Unsigned.of_to. lia.
Qed.

(** [%03d], and any [%0wd], writes different numbers differently. *)
Lemma fmt_0d_inj (width : nat) (a b : Z) :
  fmt_0d width a = fmt_0d width b -> a = b.
Proof.
  unfold fmt_0d.
  destruct (Z.ltb_spec a 0) as [Ha|Ha]; destruct (Z.ltb_spec b 0) as [Hb|Hb];
    intros E.
  - rewrite !append_cons, !append_empty_l in E. injection E as E.
    pose proof (proj2 (pad_zeros_decimal (width - 1) (- a) ltac:(lia))) as Va.
    pose proof (proj2 (pad_zeros_decimal (width - 1) (- b) ltac:(lia))) as Vb.
    rewrite E in Va. lia.
  - pose proof (proj1 (pad_zeros_decimal width b Hb)) as Db.
    rewrite <- E in Db. discriminate.
  - pose proof (proj1 (pad_zeros_decimal width a Ha)) as Da.
    rewrite E in Da. discriminate.
  - pose proof (proj2 (pad_zeros_decimal width a Ha)) as Va.
    pose proof (proj2 (pad_zeros_decimal width b Hb)) as Vb.
    rewrite E in Va. lia.
Qed.

Lemma all_digits_no_slash (s : string) :
  all_digits s = true -> count_byte "/" s = 0%nat.
Proof.
  induction s as [|c s IH]; [reflexivity |]. simpl. intros H.
  apply andb_prop in H as [Hc Hs]. rewrite (IH Hs).
  destruct (Ascii.eqb_spec c "/") as [->|_]; [discriminate | reflexivity].
Qed.

Lemma fmt_0d_no_slash (width : nat) (n : Z) :
  count_byte "/" (fmt_0d width n) = 0%nat.
Proof.
  unfold fmt_0d. destruct (Z.ltb_spec n 0) as [Hn|Hn].
  - rewrite append_cons, append_empty_l. simpl.
    apply all_digits_no_slash, pad_zeros_decimal. lia.
  - now apply all_digits_no_slash, pad_zeros_decimal.
Qed.

(** Two strings without the separator, each followed by it and a rest, are
    equal when the results are, and so are the rests. *)
Lemma delimited_inj (sep : ascii) (a a' b b' : string) :
  count_byte sep a = 0%nat -> count_byte sep a' = 0%nat ->
  a +:+ String sep b = a' +:+ String sep b' -> a = a' /\ b = b'.
Proof.
  revert a'. induction a as [|c a IH]; intros [|c' a'] Ha Ha' E;
    rewrite ?append_cons, ?append_empty_l in E; simpl in Ha, Ha'.
  - now inversion E.
  - inversion E as [[Hc Hb]]. subst c'.
    rewrite (proj2 (Ascii.eqb_eq sep sep) eq_refl) in Ha'. discriminate.
  - inversion E as [[Hc Hb]]. subst c.
    rewrite (proj2 (Ascii.eqb_eq sep sep) eq_refl) in Ha. discriminate.
  - inversion E as [[Hc Hr]]. subst c'.
    destruct (Ascii.eqb c sep); [discriminate |]. simpl in Ha, Ha'.
    destruct (IH a' Ha Ha' Hr) as [-> ->]. now split.
Qed.

(** Without a device name, two devices that loaded have the same path exactly
    when their bus numbers and their device numbers are the same numbers,
    however the strings write them. *)
Theorem USBDeviceLoad_path_inj (action vendor product major minor busnum
    devnum : string) (ueventParts : list string) (ueventLen : Z)
    (action' vendor' product' major' minor' busnum' devnum' : string)
    (ueventParts' : list string) (ueventLen' : Z) (dev dev' : USBDevice) :
  USBDeviceLoad action vendor product major minor busnum devnum ""
    ueventParts ueventLen = (dev, None) ->
  USBDeviceLoad action' vendor' product' major' minor' busnum' devnum' ""
    ueventParts' ueventLen' = (dev', None) ->
  Path dev = Path dev'
  <-> fst (strconv_Atoi busnum) = fst (strconv_Atoi busnum')
      /\ fst (strconv_Atoi devnum) = fst (strconv_Atoi devnum').
Proof.
  intros H H'.
  load_cases H; try discriminate. injection H as <-.
  load_cases H'; try discriminate. injection H' as <-.
  rewrite Eb, Ed, Eb0, Ed0. simpl. split.
  - intros E. apply (inj (String.app "/dev/bus/usb/")) in E.
    apply delimited_inj in E as [E1 E2]; try apply fmt_0d_no_slash.
    apply fmt_0d_inj in E1, E2. now split.
  - now intros [-> ->].
Qed.

End LoadFacts.

(** ** More of the [dir] driver *)

Section DriverMoreFacts.

Import Drivers.

Context {W : Type} {host : Host W}.


(** [Create] only asks: the state of the host after it is the one before,
    and the calls it made are the question whether the source exists,
    followed or not by the question whether it is empty. It mounts, unmounts
    and wipes nothing. *)
Theorem Create_reads_only (st : State W) :
  let src := source_of (with_default_source (self st)) in
  os (snd (Create st)) = os st
  /\ (calls (snd (Create st)) = (calls st ++ [CallPathExists src])%list
      \/ calls (snd (Create st))
         = (calls st ++ [CallPathExists src; CallPathIsEmpty src])%list).
Proof.
  intros src. rewrite Create_run. fold src.
  destruct (negb _); [now split; [| left] |].
  destruct (within_LXD_dir _); [now split; [| left] |].
  now split; [| right].
Qed.

(** [Info], [Validate], [Update], [Mount], [Unmount] and [Delete] leave the
    name and the configuration of the driver as they are, whatever they
    return. *)
Theorem methods_keep_self (Operation : Type) (op : option Operation)
    (cfg : gmap string string) (st : State W) :
  self (snd (dir_Info st)) = self st
  /\ self (snd (Validate cfg st)) = self st
  /\ self (snd (Update cfg st)) = self st
  /\ self (snd (Mount st)) = self st
  /\ self (snd (Unmount st)) = self st
  /\ self (snd (Delete op st)) = self st.
Proof.
  assert (HU : forall s : State W, self (snd (Unmount s)) = self s).
  { intros s.
    destruct (String.eqb_spec (source_of (self s)) (mount_path (self s)))
      as [E|E].
    - now rewrite (Unmount_self_managed s E).
    - now rewrite (Unmount_run s E). }
  split; [reflexivity | split; [reflexivity | split; [reflexivity |]]].
  split; [| split].
  - destruct (String.eqb_spec (source_of (self st)) (mount_path (self st)))
      as [E|E].
    + now rewrite (Mount_self_managed st E).
    + rewrite (Mount_run st E).
      destruct (os_sameMount _ _ (os st)); [reflexivity |].
      now destruct (os_TryMount _ _ _ _ _ (os st)) as [[e|] w1].
  - apply HU.
  - unfold Delete, bind, ret, d_name, wipeDirectory, call. simpl.
    destruct (os_wipeDirectory _ (os st)) as [[e|] w1]; [reflexivity |].
    match goal with
    | |- context [Unmount ?s] =>
        pose proof (HU s) as Hs; destruct (Unmount s) as [[b [e|]] st2]
    end; exact Hs.
Qed.

Lemma with_default_source_idem (d : dir) :
  with_default_source (with_default_source d) = with_default_source d.
Proof.
  destruct (String.eqb_spec (source_of d) "") as [E|E].
  - pose proof (source_of_default d E) as Hsrc.
    unfold with_default_source at 1.
    destruct (String.eqb_spec (source_of (with_default_source d)) "")
      as [E'|E']; [| reflexivity].
    unfold mount_path. rewrite with_default_source_name.
    fold (mount_path d). unfold with_default_source.
    rewrite (proj2 (String.eqb_eq _ _) E). simpl.
    now rewrite insert_insert_eq.
  - unfold with_default_source.
    now rewrite !(proj2 (eqb_false_iff _ _) E).
Qed.

(** A second [Create] writes nothing: the driver after it is the driver the
    first [Create] left. *)
Theorem Create_twice_self (st : State W) :
  self (snd (Create (snd (Create st)))) = self (snd (Create st)).
Proof.
  rewrite !Create_self. apply with_default_source_idem.
Qed.

(** With no source configured, on a host whose mount paths are clean, the
    containment check lets the pool pass: [Create] fails only if the mount
    path does not exist or is not found empty. *)
Theorem Create_default_not_contained (st : State W) :
  source_of (self st) = "" ->
  filepath_Clean (mount_path (self st)) = mount_path (self st) ->
  fst (Create st)
  = if os_PathExists (mount_path (self st)) (os st) then
      match os_PathIsEmpty (mount_path (self st)) (os st) with
      | (_, Some e) => Some e
      | (false, None) =>
          Some ("Source path '" +:+ mount_path (self st) +:+ "' isn't empty")
      | (true, None) => None
      end
    else Some ("Source path '" +:+ mount_path (self st) +:+ "' doesn't exist").
Proof.
  intros E Hclean. rewrite Create_run.
  assert (Hin : within_LXD_dir (with_default_source (self st)) = false).
  { unfold within_LXD_dir, mount_path.
    rewrite with_default_source_name, (source_of_default _ E).
    fold (mount_path (self st)). rewrite Hclean, String.eqb_refl.
    now rewrite andb_false_r. }
  rewrite Hin, (source_of_default _ E).
  now destruct (os_PathExists _ (os st)).
Qed.

(** [Mount] reports a mount exactly when the source is another path than the
    mount path, the two were not the same mount, and the bind mount it asked
    for succeeded; the one error it returns is the error of that bind mount,
    as the host gave it, and then it reports no mount. *)
Theorem Mount_result (st : State W) :
  let src := source_of (self st) in
  let path := mount_path (self st) in
  (fst (Mount st) = (true, None)
   <-> src <> path
       /\ os_sameMount src path (os st) = false
       /\ fst (os_TryMount src path "none" MS_BIND "" (os st)) = None)
  /\ forall (b : bool) (e : string),
       fst (Mount st) = (b, Some e) ->
       b = false
       /\ src <> path
       /\ os_sameMount src path (os st) = false
       /\ fst (os_TryMount src path "none" MS_BIND "" (os st)) = Some e.
Proof.
  intros src path.
  destruct (String.eqb_spec src path) as [E|E].
  - rewrite (Mount_self_managed st E). simpl. split.
    + split; [discriminate | intros [H _]; contradiction].
    + discriminate.
  - rewrite (Mount_run st E). fold src path.
    destruct (os_sameMount src path (os st)); simpl.
    + split; [split; [discriminate | intros (_ & ? & _); discriminate] |].
      discriminate.
    + destruct (os_TryMount src path "none" MS_BIND "" (os st)) as [[e|] w1];
        simpl.
      * split; [split; [discriminate | intros (_ & _ & ?); discriminate] |].
        intros b e' [= <- <-]. now repeat split.
      * split; [split; [now intros _ | reflexivity] | discriminate].
Qed.

End DriverMoreFacts.

(** ** Runs of what was added *)

Section MoreRuns.

Import Device.

Lemma keyed_registry_witness :
  keyed (USBRegisterHandler Examples.inst_c1 "usb0" Examples.quiet ∅)
  /\ keyed (USBUnregisterHandler Examples.inst_c1 "usb0"
              (∅ : gmap string (Handler unit))).
Proof.
  apply (proj2 (keyed_registry (RunConfig := unit))).
  exact (proj1 (keyed_registry (RunConfig := unit))).
Defined.

Lemma order3_range : range_order Examples.registry3 Examples.order3.
Proof.
  split.
  - apply (bool_decide_unpack (NoDup Examples.order3)). vm_compute. exact I.
  - intros k. unfold Examples.registry3, Examples.order3, USBRegisterHandler.
    rewrite !lookup_insert_is_Some', lookup_empty, is_Some_alt.
    rewrite !elem_of_cons, elem_of_nil.
    split; intros H; repeat (destruct H as [H|H]; [subst; tauto |]); tauto.
Qed.

Lemma dispatch3_run :
  USBRunHandlers Examples.load_known Examples.handle_record tt
    Examples.yubikey Examples.order3 Examples.dispatch3
  = Some Examples.dispatch3_after.
Proof. vm_compute. reflexivity. Qed.

(** The nil hook of [usb1] is gone after the run of [dispatch3], and the
    failing hook of [usb0] of [c2] is still registered. *)
Lemma USBRunHandlers_prunes_witness :
  handlers Examples.dispatch3_after !! usbKey Examples.inst_c1 "usb1" = None
  /\ handlers Examples.dispatch3_after !! usbKey Examples.inst_c2 "usb0"
     = Some (Some (fun _ => (None, Some "no such device"))).
Proof.
  pose proof (USBRunHandlers_prunes Examples.load_known Examples.handle_record
                tt Examples.yubikey Examples.order3 Examples.dispatch3
                Examples.dispatch3_after order3_range dispatch3_run) as H.
  split.
  - exact (eq_trans (H (usbKey Examples.inst_c1 "usb1"))
             ltac:(vm_compute; reflexivity)).
  - exact (eq_trans (H (usbKey Examples.inst_c2 "usb0"))
             ltac:(vm_compute; reflexivity)).
Defined.



Lemma dispatch_quiet_run :
  USBRunHandlers Examples.load_known Examples.handle_record tt
    Examples.yubikey
    [usbKey Examples.inst_c1 "usb1"; usbKey Examples.inst_c1 "usb0"]
    Examples.dispatch_quiet
  = Some Examples.dispatch_quiet_after.
Proof. vm_compute. reflexivity. Qed.

Lemma USBRunHandlers_quiet_witness :
  world Examples.dispatch_quiet_after = world Examples.dispatch_quiet
  /\ logged Examples.dispatch_quiet_after = logged Examples.dispatch_quiet.
Proof.
  apply (USBRunHandlers_quiet Examples.load_known Examples.handle_record tt
           Examples.yubikey
           [usbKey Examples.inst_c1 "usb1"; usbKey Examples.inst_c1 "usb0"]
           Examples.dispatch_quiet Examples.dispatch_quiet_after);
    [| exact dispatch_quiet_run].
  intros k f Hk. unfold Examples.dispatch_quiet, USBRegisterHandler in Hk.
  simpl in Hk. apply lookup_insert_Some in Hk as [[_ Hf]|[_ Hk]].
  - injection Hf as <-. reflexivity.
  - apply lookup_insert_Some in Hk as [[_ Hf]|[_ Hk]]; [discriminate |].
    rewrite lookup_empty in Hk. discriminate.
Defined.


(** The event [yubikey], loaded from the strings of its uevent. *)
Lemma yubikey_loads :
  USBDeviceLoad "add" "1050" "0407" "189" "3" "001" "004" "" [] 0
  = (Examples.yubikey, None).
Proof. vm_compute. reflexivity. Qed.

Lemma USBDeviceLoad_numbers_witness :
  Major Examples.yubikey = decimal_value "189" 0
  /\ Minor Examples.yubikey = decimal_value "3" 0.
Proof.
  pose proof (USBDeviceLoad_numbers _ _ _ _ _ _ _ _ _ _ _ yubikey_loads)
    as ((_ & _ & Hmajor & _) & (_ & _ & Hminor & _) & _).
  now split.
Defined.

Lemma USBDeviceLoad_path_absolute_witness :
  filepath_IsAbs (Path Examples.yubikey) = true.
Proof.
  exact (USBDeviceLoad_path_absolute _ _ _ _ _ _ _ _ _ _ _ yubikey_loads).
Defined.

(** With the device name [hidraw0], below [/dev], whatever the bus number
    holds. *)
Lemma USBDeviceLoad_devname_witness :
  USBDeviceLoad "add" "1050" "0407" "189" "3" "001" "004" "hidraw0" [] 0
  = USBDeviceLoad "add" "1050" "0407" "189" "3" "bus" "" "hidraw0" [] 0.
Proof.
  apply (proj1 (USBDeviceLoad_devname "add" "1050" "0407" "189" "3" "001"
                  "004" "hidraw0" [] 0 ltac:(discriminate))).
Defined.


Lemma USBDeviceLoad_then_IsOurDevice_witness :
  USBIsOurDevice {[ "vendorid" := "1050" ]} Examples.yubikey = true.
Proof.
  exact (eq_trans
           (USBDeviceLoad_then_IsOurDevice _ _ _ _ _ _ _ _ _ _ _
              {[ "vendorid" := "1050" ]} yubikey_loads)
           ltac:(vm_compute; reflexivity)).
Defined.

(** The bus number written [1] and the device number written [4] give the
    path of [001] and [004]. *)
Lemma USBDeviceLoad_path_inj_witness :
  Path Examples.yubikey
  = Path (fst (USBDeviceLoad "add" "1050" "0407" "189" "3" "1" "4" "" [] 0)).
Proof.
  assert (H : USBDeviceLoad "add" "1050" "0407" "189" "3" "1" "4" "" [] 0
              = (fst (USBDeviceLoad "add" "1050" "0407" "189" "3" "1" "4" ""
                        [] 0), None))
    by (vm_compute; reflexivity).
  apply (proj2 (USBDeviceLoad_path_inj _ _ _ _ _ _ _ _ _ _ _ _ _ _ _ _ _ _ _ _
                  yubikey_loads H)).
  split; vm_compute; reflexivity.
Defined.

End MoreRuns.

Section MoreDriverRuns.

Import Drivers.

#[local] Existing Instance SpecHost.host.

(** [pool_default] has no source configured and its mount path is clean. *)
Lemma Create_default_not_contained_witness :
  fst (Create Examples.pool_default) = None.
Proof.
  assert (H1 : source_of (self Examples.pool_default) = "")
    by (vm_compute; reflexivity).
  assert (H2 : filepath_Clean (mount_path (self Examples.pool_default))
               = mount_path (self Examples.pool_default))
    by (vm_compute; reflexivity).
  exact (eq_trans (Create_default_not_contained Examples.pool_default H1 H2)
           ltac:(vm_compute; reflexivity)).
Defined.

End MoreDriverRuns.
